(** * deepcell_tracking.utils: a shallow embedding and its properties

    The module persists, relabels and summarises tracked cell data.  This
    development embeds [clean_up_annotations], [count_pairs], [save_trks],
    [load_trks] and [trks_stats] of [deepcell_tracking/utils.py] and proves
    the properties stated about them.

    Conventions of the embedding:
    - an [np.array] is a shape together with its C-ordered buffer; elements
      are mathematical integers, the only width that the source fixes is the
      final [astype('int32')] of the relabeler, written out as [wrap32];
    - paths and entry names are ASCII strings;
    - the file system is a finite map from paths to files, a tar archive is a
      finite map from member names to blobs; every operation on it is logged
      in a trace, so that "before any I/O" is a statement about the trace;
    - a Python exception is an error value of the monad [io];
    - [np.save]/[np.load] and [json.dump]/[json.loads] are the libraries'
      codecs: a blob carries the array, or the JSON document tree, that the
      library would decode from its bytes. *)

From Stdlib Require Import ZArith QArith Qround Ascii String.
From Stdlib Require Import DecimalString DecimalPos DecimalZ.
From stdpp Require Import gmap strings list fin_maps sorting.

Local Open Scope Z_scope.
Set Warnings "-register-all".

(* ===================================================================== *)
(** * Python strings and paths *)
(* ===================================================================== *)

Module PyStr.

(** [c.lower()] on one ASCII character. *)
Definition lower_ascii (c : ascii) : ascii :=
  let n := nat_of_ascii c in
  if (65 <=? n)%nat && (n <=? 90)%nat then ascii_of_nat (n + 32) else c.

(** [s.lower()]. *)
Fixpoint lower (s : string) : string :=
  match s with
  | EmptyString => EmptyString
  | String c s' => String (lower_ascii c) (lower s')
  end.

Definition chars (s : string) : list ascii := list_ascii_of_string s.

(** [s.endswith(suf)]. *)
Definition endswith (s suf : string) : bool :=
  bool_decide (chars suf `suffix_of` chars s).

(** [s.rfind(c)] for a one-character needle: the index of the last
    occurrence, or -1.  [i] is the index of the head of [l]. *)
Fixpoint rfind_from (c : ascii) (l : list ascii) (i : Z) : Z :=
  match l with
  | [] => -1
  | x :: l' =>
      let r := rfind_from c l' (i + 1) in
      if r =? -1 then (if Ascii.eqb x c then i else -1) else r
  end.

Definition rfind (c : ascii) (s : string) : Z := rfind_from c (chars s) 0.

(** The [while] loop of [genericpath._splitext]: is there a character other
    than the dot in [p[lo:hi]]? *)
Definition has_non_dot (p : list ascii) (lo hi : Z) : bool :=
  existsb (fun c => negb (Ascii.eqb c "."))
          (take (Z.to_nat (hi - lo)) (drop (Z.to_nat lo) p)).

(** [os.path.splitext(p)] (posixpath: separator [/], extension separator
    [.]); leading dots of the last component do not start an extension. *)
Definition splitext (p : string) : string * string :=
  let sepIndex := rfind "/" p in
  let dotIndex := rfind "." p in
  if (sepIndex <? dotIndex) && has_non_dot (chars p) (sepIndex + 1) dotIndex
  then (string_of_list_ascii (take (Z.to_nat dotIndex) (chars p)),
        string_of_list_ascii (drop (Z.to_nat dotIndex) (chars p)))
  else (p, EmptyString).

(** [str(k)] for an [int]: the decimal rendering, which [json.dump] also
    uses for an integer dictionary key. *)
Definition str_of_int (k : Z) : string := NilZero.string_of_int (Z.to_int k).

(** [int(s)] for a [str]: decimal digits with an optional minus sign; any
    other text is a [ValueError] ([None] here).  Python also accepts
    surrounding blanks, a plus sign and underscores, which no key written
    by [json.dump] contains. *)
Definition int_of_str (s : string) : option Z :=
  Z.of_int <$> NilZero.int_of_string s.

End PyStr.


(* ===================================================================== *)
(** * Exceptions *)
(* ===================================================================== *)

(** The Python exceptions that the embedded functions can raise. *)
Inductive exn : Type :=
  | ValueError
  | KeyError
  | IndexError
  | TypeError
  | AttributeError
  | ZeroDivisionError
  | UnboundLocalError
  | FileNotFoundError
  | ReadError
  | JSONDecodeError.

Inductive result (A : Type) : Type :=
  | Ok (a : A)
  | Raise (e : exn).
Arguments Ok {A} a.
Arguments Raise {A} e.

Definition rbind {A B} (r : result A) (k : A -> result B) : result B :=
  match r with
  | Ok a => k a
  | Raise e => Raise e
  end.

#[global] Instance result_ret : MRet result := fun A a => Ok a.
#[global] Instance result_bind : MBind result := fun A B k r => rbind r k.

(** A [for] loop whose body may raise: the first exception ends the loop. *)
Fixpoint for_each {A S} (l : list A) (body : A -> S -> result S) (s : S) : result S :=
  match l with
  | [] => Ok s
  | x :: l' => rbind (body x s) (for_each l' body)
  end.

(** [t[i]] on a tuple (a shape): [IndexError] out of range. *)
Definition tuple_get (t : list nat) (i : nat) : result nat :=
  match t !! i with
  | Some n => Ok n
  | None => Raise IndexError
  end.

(* ===================================================================== *)
(** * numpy arrays *)
(* ===================================================================== *)

(** An array is its shape and its buffer in C order. *)
Record ndarray : Type := NdArray { shape : list nat; data : list Z }.

Definition size_of (sh : list nat) : nat := foldr Nat.mul 1%nat sh.

(** The invariant of every array that numpy builds. *)
Definition wf_array (a : ndarray) : Prop := length (data a) = size_of (shape a).

(** The axis order: Python compares the string with ['channels_first'] and
    treats every other value as channels-last. *)
Inductive data_format : Type := channels_first | channels_last.

Module Np.

(** Insertion into an ascending list without repetition. *)
Fixpoint insert_sorted (x : Z) (l : list Z) : list Z :=
  match l with
  | [] => [x]
  | y :: l' =>
      if x <? y then x :: l
      else if x =? y then l
      else y :: insert_sorted x l'
  end.

(** [np.unique(a)] on the flattened elements: ascending, distinct. *)
Definition unique (l : list Z) : list Z := foldr insert_sorted [] l.

(** [np.delete(cells, np.where(cells == 0))]. *)
Definition delete_zero (cells : list Z) : list Z :=
  filter (fun c => c <> 0) cells.

(** The buffer elements at the given offsets (a slice, flattened). *)
Definition gather (buf : list Z) (pos : list nat) : list Z :=
  (fun p => default 0 (buf !! p)) <$> pos.

(** Assignment to a slice: element [i] of [vals] goes to offset [pos[i]]. *)
Definition scatter (buf : list Z) (pos : list nat) (vals : list Z) : list Z :=
  foldl (fun b pv => <[pv.1 := pv.2]> b) buf (zip pos vals).

(** [np.zeros(shape)] for a slice of [n] elements. *)
Definition zeros (n : nat) : list Z := replicate n 0.

(** [new[old == label] = v]. *)
Definition assign_where (old : list Z) (label v : Z) (new : list Z) : list Z :=
  zip_with (fun o n => if o =? label then v else n) old new.

(** The value of a 64-bit integer after [astype('int32')]. *)
Definition wrap32 (z : Z) : Z := (z + 2 ^ 31) mod 2 ^ 32 - 2 ^ 31.

Definition astype_int32 (a : ndarray) : ndarray :=
  NdArray (shape a) (wrap32 <$> data a).

(** Offsets of the block [blk] of [len] consecutive elements. *)
Definition block (blk len : nat) : list nat := seq (blk * len) len.

End Np.

(* ===================================================================== *)
(** * clean_up_annotations *)
(* ===================================================================== *)

(** Offsets of [y[f]] (channels last) and of [y[:, f]] (channels first) in
    the buffer of an array of shape [sh]. *)
Definition frame_offsets (fmt : data_format) (sh : list nat) (f : nat) : list nat :=
  match fmt with
  | channels_last => Np.block f (size_of (drop 1 sh))
  | channels_first =>
      let C := default 0%nat (sh !! 0%nat) in
      let T := default 0%nat (sh !! 1%nat) in
      flat_map (fun c => Np.block (c * T + f) (size_of (drop 2 sh))) (seq 0 C)
  end.

Definition time_axis (fmt : data_format) : nat :=
  match fmt with channels_first => 1%nat | channels_last => 0%nat end.

(** First loop: the distinct non-zero labels of every frame. *)
Definition all_uniques (fmt : data_format) (y : ndarray) (num_frames : nat) : list (list Z) :=
  (fun f => Np.delete_zero (Np.unique (Np.gather (data y) (frame_offsets fmt (shape y) f))))
    <$> seq 0 num_frames.

(** Inner loop of the second pass: one label of the frame gets the id [uid],
    and the counter moves on. *)
Definition relabel_cell (y_frame : list Z) (cell_label : Z) (st : list Z * Z) : list Z * Z :=
  (Np.assign_where y_frame cell_label st.2 st.1, st.2 + 1).

(** Body of the second loop: the frame is rebuilt from zeros and written
    back into [y] itself. *)
Definition relabel_frame (fmt : data_format) (sh : list nat)
    (st : list Z * Z) (fu : nat * list Z) : list Z * Z :=
  let pos := frame_offsets fmt sh fu.1 in
  let y_frame := Np.gather st.1 pos in
  let r := foldl (fun s c => relabel_cell y_frame c s) (Np.zeros (length y_frame), st.2) fu.2 in
  (Np.scatter st.1 pos r.1, r.2).

(** The starting id: [sum(len(x) for x in all_uniques) + 1 if uid is None
    else uid]. *)
Definition start_uid (uid : option Z) (uniques : list (list Z)) : Z :=
  match uid with
  | None => Z.of_nat (sum_list (length <$> uniques)) + 1
  | Some u => u
  end.

(** [clean_up_annotations(y, uid, data_format)].  The result pairs the
    returned array with the state of the caller's array [y] after the call:
    the second loop assigns into [y], and [astype] returns a copy. *)
Definition clean_up_annotations (y : ndarray) (uid : option Z) (fmt : data_format)
  : result (ndarray * ndarray) :=
  num_frames ← tuple_get (shape y) (time_axis fmt);
   let uniques := all_uniques fmt y num_frames in
   let uid0 := start_uid uid uniques in
   let st := foldl (relabel_frame fmt (shape y)) (data y, uid0)
                   (zip (seq 0 num_frames) uniques) in
   let y' := NdArray (shape y) st.1 in
   Ok (Np.astype_int32 y', y').


(* ===================================================================== *)
(** * count_pairs *)
(* ===================================================================== *)

(** Offsets of [y[b, f, :, :, :]] (channels last) and of [y[b, :, f, :, :]]
    (channels first) in the buffer of an array of shape [sh]. *)
Definition pair_frame_offsets (fmt : data_format) (sh : list nat) (b f : nat) : list nat :=
  match fmt with
  | channels_last =>
      let T := default 0%nat (sh !! 1%nat) in
      Np.block (b * T + f) (size_of (drop 2 sh))
  | channels_first =>
      let C := default 0%nat (sh !! 1%nat) in
      let T := default 0%nat (sh !! 2%nat) in
      flat_map (fun c => Np.block ((b * C + c) * T + f) (size_of (drop 3 sh))) (seq 0 C)
  end.

Definition zaxis (fmt : data_format) : nat :=
  match fmt with channels_first => 2%nat | channels_last => 1%nat end.

(** [len(np.unique(y[b, ..., f, ...]))]: five indices need five axes. *)
Definition num_cells (fmt : data_format) (y : ndarray) (b f : nat) : result Z :=
  if (length (shape y) <? 5)%nat then Raise IndexError
  else Ok (Z.of_nat (length (Np.unique (Np.gather (data y) (pair_frame_offsets fmt (shape y) b f))))).

(** [a // b] on integers. *)
Definition floordiv (a b : Z) : result Z :=
  if b =? 0 then Raise ZeroDivisionError else Ok (a / b).

(** [max(l)]: [ValueError] on the empty list. *)
Definition py_max (l : list Z) : result Z :=
  match l with
  | [] => Raise ValueError
  | x :: l' => Ok (foldl Z.max x l')
  end.

(** [n // p] for an integer [n] and a float [p], the float taken as the
    rational it denotes: the floor of the quotient, as a whole number. *)
Definition floordiv_float (n : Z) (p : Q) : result Z :=
  if Qeq_bool p 0 then Raise ZeroDivisionError
  else Ok (Qfloor (inject_Z n / p)).

(** Body of the loop over the batch. *)
Definition cell_pairings (fmt : data_format) (y : ndarray) (same_probability : Q)
    (b : nat) : result Z :=
  T ← tuple_get (shape y) (zaxis fmt);
  cells_per_image ← mapM (num_cells fmt y b) (seq 0 T);
  average_cells_per_frame ← floordiv (foldr Z.add 0 cells_per_image) (Z.of_nat T);
  let non_self_cellframes := (average_cells_per_frame - 1) * Z.of_nat T in
  m ← py_max cells_per_image;
  let non_self_pairings := non_self_cellframes * m in
  floordiv_float non_self_pairings same_probability.

(** [count_pairs(y, same_probability, data_format)]. *)
Definition count_pairs (y : ndarray) (same_probability : Q) (fmt : data_format)
  : result Z :=
  B ← tuple_get (shape y) 0;
  for_each (seq 0 B)
    (fun b total_pairs =>
       pairs ← cell_pairings fmt y same_probability b;
       Ok (total_pairs + pairs))
    0.

(** One batch item, one frame, two pixels: background and one cell. *)
Definition one_cell : ndarray := NdArray [1; 1; 2; 1; 1]%nat [0; 1].

(* ===================================================================== *)
(** * Archives: the file system, JSON documents, the I/O monad *)
(* ===================================================================== *)

(** A JSON document, which is also the Python value that [json.loads]
    returns for it: [None], [bool], [int], [str], [list] and a [dict] with
    string keys in insertion order.  A Lineage Record is such a value. *)
Inductive json : Type :=
  | JNull
  | JBool (b : bool)
  | JNum (z : Z)
  | JStr (s : string)
  | JArr (l : list json)
  | JObj (m : list (string * json)).

(** A Python [dict] as the list of its items in insertion order. *)
Abbreviation dict K V := (list (K * V)%type) (only parsing).

(** The invariant of a [dict]: no key twice. *)
Definition wf_dict {K V} (d : dict K V) : Prop := NoDup d.*1.

(** A Lineage Graph: instance id to Lineage Record. *)
Abbreviation lineage_graph := (list (Z * json)%type) (only parsing).

(** [d[k] = v]: the value of an existing key is replaced in place, a new key
    is appended. *)
Fixpoint dict_set {K V} `{EqDecision K} (k : K) (v : V) (d : dict K V) : dict K V :=
  match d with
  | [] => [(k, v)]
  | (k', v') :: d' => if decide (k' = k) then (k, v) :: d' else (k', v') :: dict_set k v d'
  end.

Fixpoint dict_get {K V} `{EqDecision K} (k : K) (d : dict K V) : option V :=
  match d with
  | [] => None
  | (k', v') :: d' => if decide (k' = k) then Some v' else dict_get k d'
  end.

(** The content of an archive member. *)
Inductive blob : Type :=
  | BNpy (a : ndarray)
  | BJson (j : json)
  | BBytes (s : string).

(** A file is a tar archive, its members by name, or anything else. *)
Inductive file : Type :=
  | FTar (members : gmap string blob)
  | FBytes (s : string).

(** What [print] is given. *)
Inductive printed : Type :=
  | PStr (s : string)
  | PShape (sh : list nat)
  | PInt (z : Z)
  | PFloat (f : option Q).

(** The observable operations, in the order in which they happen. *)
Inductive event : Type :=
  | EvOpen (path : string) (writing : bool)
  | EvExtract (path member : string)
  | EvTempFile
  | EvAdd (path member : string)
  | EvPrint (items : list printed).

Record world : Type := World { fs : gmap string file; trace : list event }.

(** A computation with effects: from the world before to the result, or the
    exception, and the world after. *)
Record io (A : Type) : Type := IO { run : world → result A * world }.
Arguments IO {A} run.
Arguments run {A} _ _.

#[global] Instance io_ret : MRet io := fun A a => IO (fun w => (Ok a, w)).
#[global] Instance io_bind : MBind io := fun A B k m =>
  IO (fun w =>
        match run m w with
        | (Ok a, w') => run (k a) w'
        | (Raise e, w') => (Raise e, w')
        end).

Definition raise {A} (e : exn) : io A := IO (fun w => (Raise e, w)).

Definition lift {A} (r : result A) : io A := IO (fun w => (r, w)).

Definition log (ev : event) : io unit :=
  IO (fun w => (Ok tt, World (fs w) (trace w ++ [ev]))).

Module Tar.

(** [tarfile.open(path, 'r')]. *)
Definition open_read (path : string) : io (gmap string blob) :=
  _ ← log (EvOpen path false);
  IO (fun w =>
        match fs w !! path with
        | Some (FTar members) => (Ok members, w)
        | Some (FBytes _) => (Raise ReadError, w)
        | None => (Raise FileNotFoundError, w)
        end).

(** [tarfile.open(path, 'w')]: the file is created or truncated. *)
Definition open_write (path : string) : io unit :=
  _ ← log (EvOpen path true);
  IO (fun w => (Ok tt, World (<[path := FTar ∅]> (fs w)) (trace w))).

(** A [NamedTemporaryFile] is written and [trks.add]ed under [member];
    leaving the [with] block deletes it. *)
Definition add (path member : string) (b : blob) : io unit :=
  _ ← log EvTempFile;
  _ ← log (EvAdd path member);
  IO (fun w =>
        match fs w !! path with
        | Some (FTar members) =>
            (Ok tt, World (<[path := FTar (<[member := b]> members)]> (fs w)) (trace w))
        | _ => (Raise ReadError, w)
        end).

(** [trks.extractfile(member).read()], also through [trks.getmember]:
    [KeyError] when the archive has no such member. *)
Definition extract (path : string) (members : gmap string blob) (member : string)
  : io blob :=
  _ ← log (EvExtract path member);
  match members !! member with
  | Some b => mret b
  | None => raise KeyError
  end.

End Tar.

(** [np.load] on the bytes of a member. *)
Definition np_load (b : blob) : result ndarray :=
  match b with
  | BNpy a => Ok a
  | _ => Raise ValueError
  end.

(** [json.loads] on the decoded bytes of a member. *)
Definition json_loads (b : blob) : result json :=
  match b with
  | BJson j => Ok j
  | _ => Raise JSONDecodeError
  end.

(** [json.dump(lineages)]: a list of objects, every integer key widened to
    its decimal string. *)
Definition json_dump (lineages : list lineage_graph) : json :=
  JArr ((fun g : lineage_graph => JObj (prod_map PyStr.str_of_int id <$> g)) <$> lineages).

(** [{int(k): v for k, v in tracks.items()}]: [AttributeError] when [tracks]
    is no [dict], [ValueError] when a key is no integer literal. *)
Definition int_keys (tracks : json) : result lineage_graph :=
  match tracks with
  | JObj m =>
      for_each m
        (fun kv g =>
           match PyStr.int_of_str kv.1 with
           | Some k => Ok (dict_set k kv.2 g)
           | None => Raise ValueError
           end)
        []
  | _ => Raise AttributeError
  end.

(** The loop [for i, tracks in enumerate(lineages): lineages[i] = ...].  A
    document that is no list is a [TypeError] here. *)
Definition int_keys_all (lineages : json) : result (list lineage_graph) :=
  match lineages with
  | JArr l => mapM int_keys l
  | _ => Raise TypeError
  end.

(* ===================================================================== *)
(** * save_trks, load_trks *)
(* ===================================================================== *)

(** The dictionary that [load_trks] returns. *)
Record trks : Type := Trks { lineages : list lineage_graph; X : ndarray; y : ndarray }.

(** [save_trks(filename, lineages, raw, tracked)]. *)
Definition save_trks (filename : string) (lineages : list lineage_graph)
    (raw tracked : ndarray) : io unit :=
  if negb (PyStr.endswith (PyStr.lower filename) ".trks") then raise ValueError
  else
    _ ← Tar.open_write filename;
    _ ← Tar.add filename "lineages.json" (BJson (json_dump lineages));
    _ ← Tar.add filename "raw.npy" (BNpy raw);
    Tar.add filename "tracked.npy" (BNpy tracked).

(** [load_trks(filename)].  The local variable [lineages] is bound in the
    two branches on the extension only: it is [None] here while unbound, and
    reading it unbound at the [return] is an [UnboundLocalError]. *)
Definition load_trks (filename : string) : io trks :=
  members ← Tar.open_read filename;
  b ← Tar.extract filename members "raw.npy";
  raw ← lift (np_load b);
  b ← Tar.extract filename members "tracked.npy";
  tracked ← lift (np_load b);
  let file_extension := (PyStr.splitext filename).2 in
  lineages ←
    (if String.eqb file_extension ".trks" then
       b ← Tar.extract filename members "lineages.json";
       j ← lift (json_loads b);
       l ← lift (int_keys_all j);
       mret (Some l)
     else if String.eqb file_extension ".trk" then
       b ← Tar.extract filename members "lineage.json";
       j ← lift (json_loads b);
       g ← lift (int_keys j);
       mret (Some [g])
     else mret None);
  match lineages with
  | Some l => mret (Trks l raw tracked)
  | None => raise UnboundLocalError
  end.

(* ===================================================================== *)
(** * trks_stats *)
(* ===================================================================== *)

(** A numpy float, taken as the rational it denotes; [None] stands for nan
    and the infinities.  Rounding is not modelled. *)
Abbreviation npfloat := (option Q) (only parsing).

Definition float_of_int (z : Z) : npfloat := Some (inject_Z z).

(** [np.average(l)]: nan on the empty list. *)
Definition np_average (l : list npfloat) : npfloat :=
  match l with
  | [] => None
  | _ =>
      total ← foldr (fun x acc => a ← acc; v ← x; Some (v + a)%Q) (Some 0%Q) l;
      Some (total / inject_Z (Z.of_nat (length l)))%Q
  end.

(** [a / n] for a numpy float and an [int]: no exception, a zero divisor
    gives nan or an infinity. *)
Definition float_div_int (a : npfloat) (n : Z) : npfloat :=
  if n =? 0 then None else (fun q => q / inject_Z n)%Q <$> a.

(** [int(a)]: truncation; [ValueError] on nan. *)
Definition int_of_float (a : npfloat) : result Z :=
  match a with
  | Some q => Ok (Qnum q ÷ Z.pos (Qden q))
  | None => Raise ValueError
  end.

(** The frames that [for frame in y[batch]] goes through, flattened. *)
Definition batch_frames (y : ndarray) (batch : nat) : result (list (list Z)) :=
  B ← tuple_get (shape y) 0;
  if (B <=? batch)%nat then Raise IndexError
  else
    match shape y !! 1%nat with
    | None => Raise TypeError
    | Some T =>
        Ok ((fun t => Np.gather (data y) (Np.block (batch * T + t) (size_of (drop 2 (shape y)))))
              <$> seq 0 T)
    end.

(** Truth value of a Python object in a condition. *)
Definition truthy (j : json) : bool :=
  match j with
  | JNull => false
  | JBool b => b
  | JNum z => negb (z =? 0)
  | JStr s => negb (String.eqb s "")
  | JArr l => negb (bool_decide (length l = 0%nat))
  | JObj m => negb (bool_decide (length m = 0%nat))
  end.

(** [fields[key]]. *)
Definition getitem (fields : json) (key : string) : result json :=
  match fields with
  | JObj m =>
      match dict_get key m with
      | Some v => Ok v
      | None => Raise KeyError
      end
  | _ => Raise TypeError
  end.

(** [{cell: fields['daughters'] for cell, fields in tracks.items()}]. *)
Definition daughters_of (tracks : lineage_graph) : result (dict Z json) :=
  for_each tracks
    (fun kv d => v ← getitem kv.2 "daughters"; Ok (dict_set kv.1 v d))
    [].

(** Density loop: [np.average] of [len(np.unique(frame)) - 1] over the
    frames of one batch item. *)
Definition avg_cells (y : ndarray) (batch : nat) : result npfloat :=
  frames ← batch_frames y batch;
  Ok (np_average
        ((fun frame => float_of_int (Z.of_nat (length (Np.unique frame)) - 1)) <$> frames)).

(** The number of frames of the batch item in which [cell_id] occurs. *)
Definition frame_count (y : ndarray) (batch : nat) (cell_id : Z) : result Z :=
  frames ← batch_frames y batch;
  Ok (Z.of_nat (length (filter (fun frame => cell_id ∈ Np.unique frame) frames))).

(** Body of the loop over [enumerate(daughters)]; the state is
    [(total_tracks, total_divisions, avg_frame_counts_in_batches)]. *)
Definition division_step (y : ndarray) (bd : nat * dict Z json)
    (st : Z * Z * list npfloat) : result (Z * Z * list npfloat) :=
  let num_tracks_in_batch := Z.of_nat (length bd.2) in
  let num_div_in_batch := Z.of_nat (length (filter (fun c => truthy c.2 = true) bd.2)) in
  frame_counts ← mapM (frame_count y bd.1) bd.2.*1;
  Ok (st.1.1 + num_tracks_in_batch, st.1.2 + num_div_in_batch,
      st.2 ++ [np_average (float_of_int <$> frame_counts)]).

(** [trks_stats(filename)].  The function body ends without a [return]:
    the call evaluates to [None]. *)
Definition trks_stats (filename : string) : io json :=
  let ext := PyStr.lower (PyStr.splitext filename).2 in
  if negb (String.eqb ext ".trks" || String.eqb ext ".trk") then raise ValueError
  else
    training_data ← load_trks filename;
    daughters ← lift (mapM daughters_of (lineages training_data));
    _ ← log (EvPrint [PStr "Dataset Statistics: "]);
    _ ← log (EvPrint [PStr "Image data shape: "; PShape (shape (X training_data))]);
    _ ← log (EvPrint [PStr "Number of lineages (should equal batch size): ";
                      PInt (Z.of_nat (length (lineages training_data)))]);
    d2 ← lift (tuple_get (shape (X training_data)) 2);
    d3 ← lift (tuple_get (shape (X training_data)) 3);
    let frame_area := Z.of_nat (d2 * d3) in
    B ← lift (tuple_get (shape (y training_data)) 0);
    avg_cells_in_frame ← lift (mapM (avg_cells (y training_data)) (seq 0 B));
    let avg_cells_per_sq_pixel := float_div_int (np_average avg_cells_in_frame) frame_area in
    st ← lift (for_each (zip (seq 0 (length daughters)) daughters)
                        (division_step (y training_data)) (0, 0, []));
    let avg_num_frames_per_track := np_average st.2 in
    _ ← log (EvPrint [PStr "Total number of unique tracks (cells)      - "; PInt st.1.1]);
    _ ← log (EvPrint [PStr "Total number of divisions                  - "; PInt st.1.2]);
    _ ← log (EvPrint [PStr "Average cell density (cells/100 sq pixels) - ";
                      PFloat ((fun q => q * 100)%Q <$> avg_cells_per_sq_pixel)]);
    n ← lift (int_of_float avg_num_frames_per_track);
    _ ← log (EvPrint [PStr "Average number of frames per track         - "; PInt n]);
    mret JNull.

(** Scenario B: two batch items of two 2x2 frames; each Lineage Graph has one
    entry, whose [daughters] list is not empty. *)
Definition scenario_b_tracked : ndarray :=
  NdArray [2; 2; 2; 2; 1]%nat
    [ 0; 1; 1; 0;   0; 1; 0; 0;
      0; 0; 7; 7;   0; 0; 0; 0 ].

Definition scenario_b_record (daughter : Z) : json :=
  JObj [("label"%string, JNum 0); ("daughters"%string, JArr [JNum daughter])].

Definition scenario_b_lineages : list lineage_graph :=
  [ [(1, scenario_b_record 2)]; [(7, scenario_b_record 8)] ].

Definition empty_world : world := World ∅ [].

(** The world after saving Scenario B to [b.trks]. *)
Definition scenario_b_world : world :=
  (run (save_trks "b.trks" scenario_b_lineages scenario_b_tracked scenario_b_tracked)
       empty_world).2.

(** ** The report, as the statistics are described *)

Module Report.

(** The average of a list of numbers; none for the empty list. *)
Definition mean (l : list Q) : option Q :=
  match l with
  | [] => None
  | _ => Some (foldr Qplus 0%Q l / inject_Z (Z.of_nat (length l)))%Q
  end.

(** The average of values that may be missing: missing when one is. *)
Definition mean_opt (l : list (option Q)) : option Q :=
  l' ← mapM id l; mean l'.

(** The frames of batch item [b] of the tracked tensor. *)
Definition frames_of (y : ndarray) (b : nat) : list (list Z) :=
  let T := default 0%nat (shape y !! 1%nat) in
  (fun t => Np.gather (data y) (Np.block (b * T + t) (size_of (drop 2 (shape y)))))
    <$> seq 0 T.

(** The [daughters] field of a Lineage Record. *)
Definition daughters (fields : json) : option json :=
  match fields with
  | JObj m => dict_get "daughters"%string m
  | _ => None
  end.

(** The entry records a division: its [daughters] list is not empty. *)
Definition divides (fields : json) : bool :=
  match daughters fields with
  | Some d => truthy d
  | None => false
  end.

Definition num_lineages (t : trks) : Z := Z.of_nat (length (lineages t)).

(** Sum over the batches of the number of entries. *)
Definition total_tracks (t : trks) : Z :=
  Z.of_nat (sum_list (length <$> lineages t)).

(** Sum over the batches of the number of entries that divide. *)
Definition total_divisions (t : trks) : Z :=
  Z.of_nat (sum_list ((fun g : lineage_graph =>
                         length (filter (fun kv => divides kv.2 = true) g))
                        <$> lineages t)).

(** The distinct values of a frame, less one for the background. *)
Definition cells_in_frame (frame : list Z) : Z :=
  Z.of_nat (length (Np.unique frame)) - 1.

(** Cells per frame, averaged over the frames, then over the batch items,
    per 100 pixels of the frame area of the raw tensor. *)
Definition avg_cell_density (t : trks) : option Q :=
  let B := default 0%nat (shape (y t) !! 0%nat) in
  let area := Z.of_nat (default 0 (shape (X t) !! 2%nat) * default 0 (shape (X t) !! 3%nat))%nat in
  m ← mean_opt ((fun b => mean ((fun frame => inject_Z (cells_in_frame frame))
                                  <$> frames_of (y t) b))
                  <$> seq 0 B);
  if area =? 0 then None else Some (m / inject_Z area * 100)%Q.

(** The number of frames of batch item [b] in which [cell] occurs. *)
Definition frames_with (y : ndarray) (b : nat) (cell : Z) : Z :=
  Z.of_nat (length (filter (fun frame => cell ∈ frame) (frames_of y b))).

(** Frames per entry, averaged over the entries of a batch item, then over
    the batch items. *)
Definition avg_track_length (t : trks) : option Q :=
  mean_opt ((fun bg : nat * lineage_graph =>
               mean ((fun kv => inject_Z (frames_with (y t) bg.1 kv.1)) <$> bg.2))
              <$> zip (seq 0 (length (lineages t))) (lineages t)).

End Report.



(** The archive that [save_trks] writes. *)
Definition saved_archive (lineages : list lineage_graph) (raw tracked : ndarray)
  : gmap string blob :=
  <["tracked.npy" := BNpy tracked]>
    (<["raw.npy" := BNpy raw]>
       (<["lineages.json" := BJson (json_dump lineages)]> ∅)).

(** Every frame of a five-axis tensor has the same number of elements. *)
Definition frame_len (fmt : data_format) (sh : list nat) : nat :=
  match fmt with
  | channels_last => size_of (drop 2 sh)
  | channels_first => (default 0 (sh !! 1) * size_of (drop 3 sh))%nat
  end.

(** ** Vocabulary for stating what the relabeler computes *)

(** Position of a label in the ascending list of a frame's labels. *)
Definition index_of (v : Z) (u : list Z) : option nat :=
  fst <$> list_find (fun x => x = v) u.

(** The id that a pixel of value [v] receives when the labels [u] of its
    frame are numbered from [s]: background and values outside [u] give 0. *)
Definition new_id (u : list Z) (s : Z) (v : Z) : Z :=
  match index_of v u with
  | Some k => s + Z.of_nat k
  | None => 0
  end.

(** The distinct non-zero labels of frame [f] of [y]. *)
Definition frame_labels (fmt : data_format) (y : ndarray) (f : nat) : list Z :=
  Np.delete_zero (Np.unique (Np.gather (data y) (frame_offsets fmt (shape y) f))).

(** Number of (frame, label) regions in the frames before [f]. *)
Definition labels_before (fmt : data_format) (y : ndarray) (f : nat) : nat :=
  sum_list ((fun g => length (frame_labels fmt y g)) <$> seq 0 f).

(** The number of distinct non-background values among [l], as a set
    cardinality. *)
Definition distinct_labels (l : list Z) : nat :=
  size (list_to_set (filter (fun v => v <> 0) l) : gset Z).

(** Scenario A: two 4x4 frames with one channel; frame 0 holds labels 1 and
    2, frame 1 holds labels 1 and 3. *)
Definition scenario_a : ndarray :=
  NdArray [2; 4; 4; 1]%nat
    [ 0; 1; 1; 0;   0; 1; 1; 0;   0; 0; 2; 2;   0; 0; 2; 2;
      1; 1; 0; 0;   1; 1; 0; 0;   0; 0; 0; 3;   0; 0; 3; 3 ].

(** [assigns fmt y out f label id]: every pixel of frame [f] that holds
    [label] in [y] holds [id] in [out]. *)
Definition assigns (fmt : data_format) (y out : ndarray) (f : nat) (label id : Z) : Prop :=
  ∀ p, p ∈ frame_offsets fmt (shape y) f →
       data y !! p = Some label → data out !! p = Some id.

(** Background stays background. *)
Definition keeps_background (y out : ndarray) : Prop :=
  ∀ p, data y !! p = Some 0 → data out !! p = Some 0.


(** ** Vocabulary for the further properties *)

(** The estimate of [count_pairs] for batch item [b] before the division by
    the probability: [(average - 1) * frames * max], on the per-frame counts
    of distinct values. *)
Definition non_self_pairings (fmt : data_format) (y : ndarray) (T b : nat) : Z :=
  let cells := (fun f => Z.of_nat (length (Np.unique
                  (Np.gather (data y) (pair_frame_offsets fmt (shape y) b f))))) <$> seq 0 T in
  (foldr Z.add 0 cells / Z.of_nat T - 1) * Z.of_nat T * foldl Z.max (hd 0 cells) (tl cells).

(** A computation that leaves the file system as it found it, whether it
    returns or raises. *)
Definition read_only {A} (m : io A) : Prop := ∀ w, fs (run m w).2 = fs w.

(** A single-batch archive [cell.trk] with one track. *)
Definition single_batch_archive : gmap string blob :=
  <["lineage.json" := BJson (JObj [("7"%string, scenario_b_record 8)])]>
    (<["raw.npy" := BNpy scenario_a]>
       (<["tracked.npy" := BNpy scenario_a]> ∅)).

Definition single_batch_world : world :=
  World (<["cell.trk" := FTar single_batch_archive]> ∅) [].

(** The archive of Scenario B under a single-batch name. *)
Definition renamed_world : world :=
  World (<["b.trk" := FTar (saved_archive scenario_b_lineages
                              scenario_b_tracked scenario_b_tracked)]> ∅) [].

(** An archive whose only Lineage Record has no [daughters] field. *)
Definition no_daughters_lineages : list (list (Z * json)) :=
  [ [(1, JObj [("label"%string, JNum 1)])] ].

Definition no_daughters_world : world :=
  (run (save_trks "n.trks" no_daughters_lineages scenario_b_tracked scenario_b_tracked)
       empty_world).2.

(** An archive of two batch items whose second Lineage Graph is empty. *)
Definition empty_graph_lineages : list (list (Z * json)) :=
  [ [(1, scenario_b_record 2)]; [] ].

Definition empty_graph_world : world :=
  (run (save_trks "e.trks" empty_graph_lineages scenario_b_tracked scenario_b_tracked)
       empty_world).2.

(** The lines that [trks_stats] has printed when it converts the average
    track length to an integer. *)
Definition report_lines_before_length (t : trks) : list event :=
  [ EvPrint [PStr "Dataset Statistics: "];
    EvPrint [PStr "Image data shape: "; PShape (shape (X t))];
    EvPrint [PStr "Number of lineages (should equal batch size): ";
             PInt (Report.num_lineages t)];
    EvPrint [PStr "Total number of unique tracks (cells)      - ";
             PInt (Report.total_tracks t)];
    EvPrint [PStr "Total number of divisions                  - ";
             PInt (Report.total_divisions t)];
    EvPrint [PStr "Average cell density (cells/100 sq pixels) - ";
             PFloat (Report.avg_cell_density t)] ].

(* ===================================================================== *)
(** * trk_folder_to_trks *)
(* ===================================================================== *)

(** An element of a sort key: [convert] gives an [int] or a [str]. *)
Inductive key_part : Type :=
  | KInt (n : Z)
  | KStr (s : string).

Module Natural.

(** A character of the class [[0-9]] of the pattern. *)
Definition is_digit (c : ascii) : bool :=
  let n := nat_of_ascii c in (48 <=? n)%nat && (n <=? 57)%nat.

(** A character that [str.isdigit] takes for a digit.  A string being a
    sequence of code points below 256, these are the decimal digits and the
    superscript digits U+00B2, U+00B3 and U+00B9, which [int] does not
    read. *)
Definition isdigit_char (c : ascii) : bool :=
  let n := nat_of_ascii c in
  is_digit c || (n =? 178)%nat || (n =? 179)%nat || (n =? 185)%nat.

(** [text.isdigit()]: not empty, digits only. *)
Definition isdigit (text : string) : bool :=
  negb (String.eqb text "") && forallb isdigit_char (PyStr.chars text).

(** One character more at the front of a string that is already split:
    [st.1] is the first piece, digit-free, and [st.2] the pieces after it,
    runs of digits and digit-free pieces in turn. *)
Definition split_step (c : ascii) (st : list ascii * list (list ascii))
  : list ascii * list (list ascii) :=
  if is_digit c then
    match st.1, st.2 with
    | [], d1 :: rest => ([], (c :: d1) :: rest)
    | [], [] => ([], [[c]; []])
    | _ :: _, _ => ([], [c] :: st.1 :: st.2)
    end
  else (c :: st.1, st.2).

(** [re.split('([0-9]+)', key)]: the maximal runs of digits and the pieces
    between them, the first and the last piece possibly empty. *)
Definition re_split (key : string) : list string :=
  let st := foldr split_step ([], []) (PyStr.chars key) in
  string_of_list_ascii <$> (st.1 :: st.2).

(** [convert = lambda text: int(text) if text.isdigit() else text].  The
    limit of [int] on the length of a decimal text (4300 digits in recent
    versions of Python) is far above the length of a file name. *)
Definition convert (text : string) : result key_part :=
  if isdigit text then
    match PyStr.int_of_str text with
    | Some n => Ok (KInt n)
    | None => Raise ValueError
    end
  else Ok (KStr text).

(** [alphanum_key = lambda key: [convert(c) for c in re.split('([0-9]+)', key)]]. *)
Definition alphanum_key (key : string) : result (list key_part) :=
  mapM convert (re_split key).

(** [x == y] on key elements: an [int] and a [str] are not equal. *)
Definition part_eqb (x y : key_part) : bool :=
  match x, y with
  | KInt n, KInt m => n =? m
  | KStr s, KStr t => String.eqb s t
  | _, _ => false
  end.

(** [a < b] on lists: the first elements that differ decide, with their own
    [<], which raises [TypeError] between an [int] and a [str]; a proper
    prefix is smaller. *)
Fixpoint key_lt (a b : list key_part) : result bool :=
  match a, b with
  | [], [] => Ok false
  | [], _ :: _ => Ok true
  | _ :: _, [] => Ok false
  | x :: a', y :: b' =>
      if part_eqb x y then key_lt a' b'
      else
        match x, y with
        | KInt n, KInt m => Ok (n <? m)
        | KStr s, KStr t => Ok (String.ltb s t)
        | _, _ => Raise TypeError
        end
  end.

(** Insertion of [x], which came before all of [l], into the sorted [l]:
    behind the elements that are smaller, before the others. *)
Fixpoint insert_by_key {A} (x : list key_part * A) (l : list (list key_part * A))
  : result (list (list key_part * A)) :=
  match l with
  | [] => Ok [x]
  | y :: l' =>
      c ← key_lt y.1 x.1;
      if c : bool then r ← insert_by_key x l'; Ok (y :: r)
      else Ok (x :: y :: l')
  end.

(** [sorted(l, key=alphanum_key)]: the keys are computed once, in the order
    of [l]; the sort is stable.  The comparisons are those of an insertion
    sort; for keys whose comparisons do not raise the result is that of
    Python's sort. *)
Definition sorted (l : list string) : result (list string) :=
  keyed ← mapM (fun name => k ← alphanum_key name; Ok (k, name)) l;
  r ← foldr (fun x acc => s ← acc; insert_by_key x s) (Ok []) keyed;
  Ok (r.*2).

End Natural.

Module PosixPath.

(** [s.lstrip('/')]. *)
Fixpoint lstrip_sep (l : list ascii) : list ascii :=
  match l with
  | c :: l' => if Ascii.eqb c "/" then lstrip_sep l' else l
  | [] => []
  end.

(** [s.rstrip('/')]. *)
Definition rstrip_sep (l : list ascii) : list ascii :=
  reverse (lstrip_sep (reverse l)).

(** [os.path.join(a, b)]. *)
Definition join (a b : string) : string :=
  if match b with String "/" _ => true | _ => false end then b
  else if String.eqb a "" || PyStr.endswith a "/" then a ++ b
  else a ++ "/" ++ b.

(** [os.path.dirname(p)]. *)
Definition dirname (p : string) : string :=
  let i := Z.to_nat (PyStr.rfind "/" p + 1) in
  let head := take i (PyStr.chars p) in
  string_of_list_ascii
    (if negb (bool_decide (head = [])) && negb (forallb (fun c => Ascii.eqb c "/") head)
     then rstrip_sep head else head).

End PosixPath.

(** [np.asanyarray(l)] on a list of arrays, as [np.save] applies it: arrays
    of one shape are stacked along a new first axis, the empty list is the
    empty vector.  Arrays of different shapes are a [ValueError] (numpy 1.24
    and later; earlier versions build an array of objects). *)
Definition np_asanyarray (l : list ndarray) : result ndarray :=
  match l with
  | [] => Ok (NdArray [0%nat] [])
  | a :: l' =>
      if forallb (fun b => bool_decide (shape b = shape a)) l'
      then Ok (NdArray (length l :: shape a) (concat (data <$> l)))
      else Raise ValueError
  end.

(** A temporary file receives [np.save] of a list of arrays and is added to
    the archive under [member]. *)
Definition tar_add_arrays (path member : string) (l : list ndarray) : io unit :=
  _ ← log EvTempFile;
  a ← lift (np_asanyarray l);
  _ ← log (EvAdd path member);
  IO (fun w =>
        match fs w !! path with
        | Some (FTar members) =>
            (Ok tt, World (<[path := FTar (<[member := BNpy a]> members)]> (fs w)) (trace w))
        | _ => (Raise ReadError, w)
        end).

(** [save_trks(filename, lineages, raw, tracked)] as [trk_folder_to_trks]
    calls it, with lists of arrays for [raw] and [tracked]. *)
Definition save_trks_lists (filename : string) (lineages : list (list (Z * json)))
    (raw tracked : list ndarray) : io unit :=
  if negb (PyStr.endswith (PyStr.lower filename) ".trks") then raise ValueError
  else
    _ ← Tar.open_write filename;
    _ ← Tar.add filename "lineages.json" (BJson (json_dump lineages));
    _ ← tar_add_arrays filename "raw.npy" raw;
    tar_add_arrays filename "tracked.npy" tracked.

(** A [for] loop with effects: the first exception ends it. *)
Fixpoint io_for_each {A S} (l : list A) (body : A → S → io S) (s : S) : io S :=
  match l with
  | [] => mret s
  | x :: l' => s' ← body x s; io_for_each l' body s'
  end.

(** Body of the loop of [trk_folder_to_trks]; the state is
    [(lineages, raw, tracked)]. *)
Definition folder_step (dirname filename : string)
    (st : list (list (Z * json)) * list ndarray * list ndarray)
  : io (list (list (Z * json)) * list ndarray * list ndarray) :=
  trk ← load_trks (PosixPath.join dirname filename);
  g ← lift (match lineages trk with
            | g :: _ => Ok g
            | [] => Raise IndexError
            end);
  mret (st.1.1 ++ [g], st.1.2 ++ [X trk], st.2 ++ [y trk]).

(** [trk_folder_to_trks(dirname, trks_filename)].  [file_list] is what
    [os.listdir(dirname)] returns, in the order in which it returns it. *)
Definition trk_folder_to_trks (file_list : list string) (dirname trks_filename : string)
  : io unit :=
  file_list_sorted ← lift (Natural.sorted file_list);
  st ← io_for_each file_list_sorted (folder_step dirname) ([], [], []);
  let file_path := PosixPath.join (PosixPath.dirname dirname) trks_filename in
  save_trks_lists file_path st.1.1 st.1.2 st.2.

(** ** Vocabulary for the sort key *)

(** A key whose elements are a [str] and an [int] in turn; [want_str] says
    which of the two the first element is. *)
Fixpoint alternates (want_str : bool) (k : list key_part) : Prop :=
  match k with
  | [] => True
  | KStr _ :: k' => want_str = true ∧ alternates false k'
  | KInt _ :: k' => want_str = false ∧ alternates true k'
  end.

(** The pieces of a split after the first: runs of digits, not empty, and
    digit-free pieces in turn. *)
Fixpoint pieces_ok (digits_next : bool) (l : list (list ascii)) : Prop :=
  match l with
  | [] => True
  | p :: l' =>
      (if digits_next
       then p ≠ [] ∧ forallb Natural.is_digit p = true
       else forallb (fun c => negb (Natural.is_digit c)) p = true)
      ∧ pieces_ok (negb digits_next) l'
  end.

(** A character that is no superscript digit. *)
Definition plain_char (c : ascii) : bool :=
  Natural.is_digit c || negb (Natural.isdigit_char c).

(** A name without a superscript digit. *)
Definition plain_name (s : string) : Prop :=
  forallb plain_char (PyStr.chars s) = true.

(** A string without a decimal digit and without a superscript digit. *)
Definition digit_free (s : string) : Prop :=
  forallb (fun c => negb (Natural.isdigit_char c)) (PyStr.chars s) = true.

(** ** Vocabulary for the folder compiler *)

(** A computation whose result depends on the files only, not on the
    operations logged before it. *)
Definition trace_blind {A} (m : io A) : Prop :=
  ∀ w w', fs w = fs w' → (run m w).1 = (run m w').1.

(** A directory [set] with the single-batch archives [cell10.trk] and
    [cell2.trk]. *)
Definition folder_world : world :=
  World (<["set/cell10.trk" := FTar single_batch_archive]>
           (<["set/cell2.trk" := FTar single_batch_archive]> ∅)) [].

(** The Lineage Graph of [single_batch_archive], keys as integers. *)
Definition single_batch_graph : list (Z * json) := [(7, scenario_b_record 8)].

(** An ASCII letter.  No text with a letter in it is read by [int]. *)
Definition is_letter (c : ascii) : bool :=
  let n := nat_of_ascii c in
  ((65 <=? n)%nat && (n <=? 90)%nat) || ((97 <=? n)%nat && (n <=? 122)%nat).

(** A dictionary key with a letter in it. *)
Definition has_letter (s : string) : Prop :=
  Exists (fun c => is_letter c = true) (PyStr.chars s).

(* ===================================================================== *)
(** * Properties *)
(* ===================================================================== *)

Example splitext_plain : PyStr.splitext "data/a.trks" = ("data/a"%string, ".trks"%string).
Proof. reflexivity. Qed.

Example splitext_hidden : PyStr.splitext "data/.trks" = ("data/.trks"%string, ""%string).
Proof. reflexivity. Qed.

Example splitext_dir_dot : PyStr.splitext "a.b/c" = ("a.b/c"%string, ""%string).
Proof. reflexivity. Qed.

Example lower_upper : PyStr.lower "A.TRKS" = "a.trks"%string.
Proof. reflexivity. Qed.

Example endswith_ex : PyStr.endswith "a.trks" ".trks" = true.
Proof. reflexivity. Qed.

Example str_of_int_ex : PyStr.str_of_int (-12) = "-12"%string /\ PyStr.str_of_int 0 = "0"%string.
Proof. split; reflexivity. Qed.

Example int_of_str_ex : PyStr.int_of_str "-12" = Some (-12) /\ PyStr.int_of_str "x" = None.
Proof. split; reflexivity. Qed.

Example scenario_a_run :
  clean_up_annotations scenario_a None channels_last =
  Ok (NdArray [2; 4; 4; 1]%nat
        [ 0; 5; 5; 0;   0; 5; 5; 0;   0; 0; 6; 6;   0; 0; 6; 6;
          7; 7; 0; 0;   7; 7; 0; 0;   0; 0; 0; 8;   0; 0; 8; 8 ],
      NdArray [2; 4; 4; 1]%nat
        [ 0; 5; 5; 0;   0; 5; 5; 0;   0; 0; 6; 6;   0; 0; 6; 6;
          7; 7; 0; 0;   7; 7; 0; 0;   0; 0; 0; 8;   0; 0; 8; 8 ]).
Proof. vm_compute. reflexivity. Qed.

(** ** [np.unique] *)

Lemma insert_sorted_elem x l v : v ∈ Np.insert_sorted x l ↔ v = x ∨ v ∈ l.
Proof.
  induction l as [|y l IH]; simpl.
  - rewrite list_elem_of_singleton, elem_of_nil. tauto.
  - destruct (Z.ltb_spec x y); [by rewrite elem_of_cons|].
    destruct (Z.eqb_spec x y) as [->|].
    + rewrite elem_of_cons. tauto.
    + rewrite !elem_of_cons, IH. tauto.
Qed.

Lemma insert_sorted_sorted x l :
  StronglySorted Z.lt l → StronglySorted Z.lt (Np.insert_sorted x l).
Proof.
  induction 1 as [|y l Hl IH Hy]; simpl.
  - repeat constructor.
  - destruct (Z.ltb_spec x y).
    + constructor; [by constructor|].
      constructor; [done|]. eapply Forall_impl; [exact Hy|]. simpl. lia.
    + destruct (Z.eqb_spec x y); [by constructor|].
      constructor; [done|].
      apply Forall_forall. intros v [->|Hv]%insert_sorted_elem; [lia|].
      by eapply Forall_forall in Hy.
Qed.

Lemma unique_elem l v : v ∈ Np.unique l ↔ v ∈ l.
Proof.
  induction l as [|x l IH]; simpl; [done|].
  rewrite insert_sorted_elem, elem_of_cons, IH. done.
Qed.

Lemma unique_sorted l : StronglySorted Z.lt (Np.unique l).
Proof. induction l; simpl; [constructor|by apply insert_sorted_sorted]. Qed.

Lemma sorted_lt_NoDup (l : list Z) : StronglySorted Z.lt l → NoDup l.
Proof.
  induction 1 as [|x l _ IH Hx]; constructor; [|done].
  intros Hin. eapply Forall_forall in Hx; [|done]. lia.
Qed.

Lemma delete_zero_elem l v : v ∈ Np.delete_zero l ↔ v ≠ 0 ∧ v ∈ l.
Proof. unfold Np.delete_zero. by rewrite list_elem_of_filter. Qed.

Lemma delete_zero_sorted l :
  StronglySorted Z.lt l → StronglySorted Z.lt (Np.delete_zero l).
Proof.
  unfold Np.delete_zero.
  induction 1 as [|x l Hl IH Hx]; [constructor|].
  rewrite filter_cons. case_decide; [|done].
  constructor; [done|].
  apply Forall_forall. intros v [_ Hv]%list_elem_of_filter.
  by eapply Forall_forall in Hx.
Qed.



(** ** Slices: reading and writing through a list of offsets *)

Lemma length_gather (buf : list Z) (pos : list nat) : length (Np.gather buf pos) = length pos.
Proof. unfold Np.gather. by rewrite length_fmap. Qed.

Lemma scatter_fmap_foldl (h : nat → Z) (pos : list nat) (buf : list Z) :
  Np.scatter buf pos (h <$> pos) = foldl (fun b p => <[p := h p]> b) buf pos.
Proof.
  unfold Np.scatter. revert buf.
  induction pos as [|x pos IH]; intros buf; simpl; [done|]. apply IH.
Qed.

Lemma length_foldl_insert (h : nat → Z) (pos : list nat) (buf : list Z) :
  length (foldl (fun b p => <[p := h p]> b) buf pos) = length buf.
Proof.
  revert buf. induction pos as [|x pos IH]; intros buf; simpl; [done|].
  by rewrite IH, length_insert.
Qed.

Lemma lookup_foldl_insert (h : nat → Z) (pos : list nat) (buf : list Z) (p : nat) :
  foldl (fun b p => <[p := h p]> b) buf pos !! p =
  if decide (p ∈ pos) then (fun _ => h p) <$> buf !! p else buf !! p.
Proof.
  revert buf. induction pos as [|x pos IH]; intros buf; cbn [foldl].
  - rewrite decide_False; [done|]. apply not_elem_of_nil.
  - rewrite IH, list_lookup_insert. clear IH.
    destruct (decide (p ∈ x :: pos)) as [Hin|Hin].
    + destruct (decide (p ∈ pos)) as [Hp|Hp].
      * case_decide as Hx; [|done].
        destruct Hx as [-> Hlt]. apply lookup_lt_is_Some in Hlt as [? ->]. done.
      * apply elem_of_cons in Hin as [->|?]; [|done].
        case_decide as Hx.
        -- destruct Hx as [_ Hlt]. apply lookup_lt_is_Some in Hlt as [? ->]. done.
        -- destruct (buf !! x) eqn:E; [|done].
           exfalso. apply Hx. split; [done|]. by eapply lookup_lt_Some.
    + rewrite elem_of_cons in Hin.
      rewrite decide_False by tauto. rewrite decide_False; [done|].
      intros [-> _]. tauto.
Qed.

(** Writing [g] of what was read back to where it was read. *)
Lemma lookup_scatter_gather (g : Z → Z) (buf : list Z) (pos : list nat) (p : nat) :
  Np.scatter buf pos (g <$> Np.gather buf pos) !! p =
  if decide (p ∈ pos) then g <$> buf !! p else buf !! p.
Proof.
  unfold Np.gather. rewrite <-list_fmap_compose, scatter_fmap_foldl.
  rewrite lookup_foldl_insert. case_decide; [|done].
  simpl. by destruct (buf !! p).
Qed.

Lemma length_scatter_gather (g : Z → Z) (buf : list Z) (pos : list nat) :
  length (Np.scatter buf pos (g <$> Np.gather buf pos)) = length buf.
Proof.
  unfold Np.gather. rewrite <-list_fmap_compose, scatter_fmap_foldl.
  apply length_foldl_insert.
Qed.

(** ** The inner loop: numbering the labels of one frame *)

Lemma index_of_app_l v u1 u2 k :
  index_of v u1 = Some k → index_of v (u1 ++ u2) = Some k.
Proof.
  unfold index_of. destruct (list_find _ u1) as [[i x]|] eqn:E; [|done].
  intros [= <-]. by erewrite list_find_app_l.
Qed.

Lemma index_of_None v u : index_of v u = None ↔ v ∉ u.
Proof.
  unfold index_of. rewrite fmap_None, list_find_None, Forall_forall.
  split; [intros H Hin; by apply (H v)|intros H x Hx ->; done].
Qed.

Lemma index_of_Some v u k : index_of v u = Some k → u !! k = Some v.
Proof.
  unfold index_of. destruct (list_find _ u) as [[i x]|] eqn:E; [|done].
  apply list_find_Some in E as (? & -> & _). by intros [= <-].
Qed.

Lemma index_of_lookup v u k : NoDup u → u !! k = Some v → index_of v u = Some k.
Proof.
  intros Hnd Hk. unfold index_of.
  destruct (list_find _ u) as [[i x]|] eqn:E.
  - apply list_find_Some in E as (Hi & -> & _). simpl. f_equal.
    by eapply NoDup_lookup.
  - apply list_find_None in E. eapply Forall_lookup in E; [|done]. done.
Qed.

Lemma index_of_snoc_new v u : v ∉ u → index_of v (u ++ [v]) = Some (length u).
Proof.
  intros Hv. unfold index_of.
  rewrite list_find_app_r by (apply list_find_None, Forall_forall; by intros ?? ->).
  simpl. rewrite decide_True by done. simpl. f_equal; lia.
Qed.

Lemma index_of_snoc_other v c u : v ≠ c → index_of v (u ++ [c]) = index_of v u.
Proof.
  intros Hne. destruct (index_of v u) as [k|] eqn:E.
  - by apply index_of_app_l.
  - apply index_of_None. apply index_of_None in E.
    rewrite elem_of_app, list_elem_of_singleton. tauto.
Qed.

Lemma new_id_snoc u c s v :
  c ∉ u →
  new_id (u ++ [c]) s v = if v =? c then s + Z.of_nat (length u) else new_id u s v.
Proof.
  intros Hc. unfold new_id. destruct (Z.eqb_spec v c) as [->|Hne].
  - by rewrite index_of_snoc_new.
  - by rewrite index_of_snoc_other.
Qed.

Lemma relabel_cells_spec y_frame u s :
  NoDup u →
  foldl (fun st c => relabel_cell y_frame c st) (Np.zeros (length y_frame), s) u =
  (new_id u s <$> y_frame, s + Z.of_nat (length u)).
Proof.
  induction u as [|c u IH] using rev_ind; intros Hnd.
  - simpl. f_equal; [|lia]. unfold Np.zeros.
    induction y_frame as [|v l IHl]; simpl; [done|]. by rewrite IHl.
  - apply NoDup_app in Hnd as (Hu & Hc & _).
    rewrite foldl_snoc, IH by done. unfold relabel_cell. simpl.
    rewrite length_app. simpl. f_equal; [|lia].
    unfold Np.assign_where. rewrite zip_with_fmap_r, zip_with_diag.
    apply list_fmap_ext. intros i v _. simpl.
    rewrite new_id_snoc; [done|]. intros Hin. by apply (Hc c), list_elem_of_singleton.
Qed.

(** ** The outer loop: frames are rewritten one after the other *)

Lemma zip_fmap_diag {A B} (g : A → B) (l : list A) :
  zip l (g <$> l) = (fun x => (x, g x)) <$> l.
Proof. induction l as [|x l IH]; csimpl; [done|]. by f_equal. Qed.

Lemma frame_labels_NoDup fmt y f : NoDup (frame_labels fmt y f).
Proof. apply sorted_lt_NoDup, delete_zero_sorted, unique_sorted. Qed.

Lemma labels_before_S fmt y f :
  labels_before fmt y (S f) = (labels_before fmt y f + length (frame_labels fmt y f))%nat.
Proof.
  unfold labels_before. rewrite seq_S, fmap_app, sum_list_with_app. simpl. lia.
Qed.

Section relabel_loop.
Context (fmt : data_format) (y : ndarray) (T : nat) (uid0 : Z).

(** Distinct frames of the volume share no element. *)
Hypothesis Hdisjoint : ∀ f g p,
  (f < T)%nat → (g < T)%nat →
  p ∈ frame_offsets fmt (shape y) f → p ∈ frame_offsets fmt (shape y) g → f = g.

Let loop_state (k : nat) : list Z * Z :=
  foldl (relabel_frame fmt (shape y)) (data y, uid0)
        (zip (seq 0 k) (all_uniques fmt y k)).

Lemma loop_state_S k :
  loop_state (S k) = relabel_frame fmt (shape y) (loop_state k) (k, frame_labels fmt y k).
Proof.
  unfold loop_state, all_uniques.
  rewrite !zip_fmap_diag, seq_S, fmap_app, foldl_app. done.
Qed.

Lemma loop_invariant k :
  (k ≤ T)%nat →
  length (loop_state k).1 = length (data y) ∧
  (loop_state k).2 = uid0 + Z.of_nat (labels_before fmt y k) ∧
  ∀ f p, (f < T)%nat → p ∈ frame_offsets fmt (shape y) f →
    (loop_state k).1 !! p =
    if decide (f < k)%nat
    then new_id (frame_labels fmt y f) (uid0 + Z.of_nat (labels_before fmt y f)) <$> data y !! p
    else data y !! p.
Proof.
  induction k as [|k IH]; intros Hk.
  - split_and!; [done|unfold loop_state, labels_before; simpl; lia|].
    intros f p _ _. rewrite decide_False by lia. done.
  - destruct IH as (Hlen & Huid & Hbuf); [lia|].
    rewrite loop_state_S. unfold relabel_frame. cbn [fst snd].
    set (pos := frame_offsets fmt (shape y) k).
    assert (Np.gather (loop_state k).1 pos = Np.gather (data y) pos) as Hg.
    { unfold Np.gather. apply list_fmap_ext. intros i p Hp.
      rewrite (Hbuf k p), decide_False by (lia || by eapply list_elem_of_lookup_2).
      done. }
    rewrite Hg, length_gather.
    rewrite <-(length_gather (data y) pos), relabel_cells_spec by apply frame_labels_NoDup.
    cbn [fst snd]. rewrite <-Hg.
    split_and!.
    + by rewrite length_scatter_gather.
    + rewrite Huid, labels_before_S. lia.
    + intros f p Hf Hp. rewrite lookup_scatter_gather.
      destruct (decide (p ∈ pos)) as [Hin|Hin].
      * assert (f = k) as -> by (eapply Hdisjoint; eauto with lia).
        rewrite (Hbuf k p), decide_False, decide_True, Huid by (done || lia). done.
      * rewrite (Hbuf f p) by done.
        destruct (decide (f = k)) as [->|]; [done|].
        destruct (decide (f < k)%nat); [rewrite decide_True by lia|rewrite decide_False by lia]; done.
Qed.

End relabel_loop.

(** ** Frames partition the buffer *)

Lemma elem_of_block p b len :
  p ∈ Np.block b len ↔ (b * len ≤ p < b * len + len)%nat.
Proof. unfold Np.block. rewrite elem_of_seq. lia. Qed.

Lemma block_inj p b b' len :
  p ∈ Np.block b len → p ∈ Np.block b' len → b = b'.
Proof. rewrite !elem_of_block. nia. Qed.

Lemma block_of_offset p len n :
  (p < n * len)%nat → ∃ b, (b < n)%nat ∧ p ∈ Np.block b len.
Proof.
  intros Hp. assert (len ≠ 0)%nat as Hlen by lia.
  exists (p / len)%nat. rewrite elem_of_block.
  pose proof (Nat.div_mod p len Hlen) as Hdm.
  pose proof (Nat.mod_upper_bound p len Hlen) as Hm.
  split; [apply Nat.Div0.div_lt_upper_bound; lia|lia].
Qed.

Lemma elem_of_flat_map {A B} (f : A → list B) (l : list A) (x : B) :
  x ∈ flat_map f l ↔ ∃ a, a ∈ l ∧ x ∈ f a.
Proof.
  rewrite list_elem_of_In, in_flat_map.
  split; intros (a & Ha & Hx); exists a; by rewrite ?list_elem_of_In in *.
Qed.

Lemma time_axis_last (sh : list nat) (T : nat) :
  sh !! time_axis channels_last = Some T → ∃ rest, sh = T :: rest.
Proof. destruct sh as [|? rest]; intros [= ->]; eauto. Qed.

Lemma time_axis_first (sh : list nat) (T : nat) :
  sh !! time_axis channels_first = Some T → ∃ C rest, sh = C :: T :: rest.
Proof. destruct sh as [|C [|? rest]]; intros [= ->]; eauto. Qed.

Lemma elem_of_frame_last T rest f p :
  p ∈ frame_offsets channels_last (T :: rest) f ↔ p ∈ Np.block f (size_of rest).
Proof. done. Qed.

Lemma elem_of_frame_first C T rest f p :
  p ∈ frame_offsets channels_first (C :: T :: rest) f ↔
  ∃ c, (c < C)%nat ∧ p ∈ Np.block (c * T + f) (size_of rest).
Proof.
  unfold frame_offsets. cbn [lookup list_lookup default drop].
  rewrite elem_of_flat_map.
  split; intros (c & Hc & Hin); exists c; (split; [|exact Hin]).
  - apply elem_of_seq in Hc. simpl in Hc. lia.
  - apply elem_of_seq. simpl. lia.
Qed.

Lemma frames_disjoint fmt sh T f g p :
  sh !! time_axis fmt = Some T →
  (f < T)%nat → (g < T)%nat →
  p ∈ frame_offsets fmt sh f → p ∈ frame_offsets fmt sh g → f = g.
Proof.
  destruct fmt; intros Hsh Hf Hg.
  - apply time_axis_first in Hsh as (C & rest & ->).
    rewrite !elem_of_frame_first. intros (c & _ & Hc) (c' & _ & Hc').
    pose proof (block_inj _ _ _ _ Hc Hc') as Heq.
    assert (c = c') as -> by nia. lia.
  - apply time_axis_last in Hsh as (rest & ->).
    rewrite !elem_of_frame_last. apply block_inj.
Qed.

Lemma frames_cover fmt sh T p :
  sh !! time_axis fmt = Some T →
  (p < size_of sh)%nat → ∃ f, (f < T)%nat ∧ p ∈ frame_offsets fmt sh f.
Proof.
  destruct fmt; intros Hsh Hp.
  - apply time_axis_first in Hsh as (C & rest & ->). simpl in Hp.
    destruct (block_of_offset p (size_of rest) (C * T)) as (b & Hb & Hin); [lia|].
    assert (T ≠ 0)%nat as HT by lia.
    exists (b mod T)%nat. split; [by apply Nat.mod_upper_bound|].
    apply elem_of_frame_first. exists (b / T)%nat.
    split; [apply Nat.Div0.div_lt_upper_bound; lia|].
    replace (b / T * T + b mod T)%nat with b; [done|].
    pose proof (Nat.div_mod b T HT). lia.
  - apply time_axis_last in Hsh as (rest & ->). simpl in Hp.
    setoid_rewrite elem_of_frame_last. by apply block_of_offset.
Qed.


(** ** What [clean_up_annotations] computes *)

Lemma sum_lengths_labels fmt y T :
  sum_list (length <$> all_uniques fmt y T) = labels_before fmt y T.
Proof. unfold all_uniques, labels_before. by rewrite <-list_fmap_compose. Qed.

Lemma clean_up_annotations_spec y uid fmt T :
  shape y !! time_axis fmt = Some T →
  ∃ y', clean_up_annotations y uid fmt = Ok (Np.astype_int32 y', y') ∧
    shape y' = shape y ∧
    length (data y') = length (data y) ∧
    ∀ f p, (f < T)%nat → p ∈ frame_offsets fmt (shape y) f →
      data y' !! p =
      new_id (frame_labels fmt y f)
             (start_uid uid (all_uniques fmt y T) + Z.of_nat (labels_before fmt y f))
        <$> data y !! p.
Proof.
  intros Hsh. unfold clean_up_annotations, tuple_get. rewrite Hsh. cbn.
  eexists. split; [reflexivity|]. cbn [shape data].
  destruct (loop_invariant fmt y T (start_uid uid (all_uniques fmt y T))
              (fun f g p => frames_disjoint fmt (shape y) T f g p Hsh) T)
    as (Hlen & _ & Hbuf); [done|].
  split_and!; [done|done|].
  intros f p Hf Hp. rewrite (Hbuf f p Hf Hp), decide_True by done. done.
Qed.

Lemma labels_before_mono fmt y f g :
  (f ≤ g)%nat → (labels_before fmt y f ≤ labels_before fmt y g)%nat.
Proof. induction 1; [done|]. rewrite labels_before_S. lia. Qed.

Lemma labels_before_lt fmt y f g :
  (f < g)%nat →
  (labels_before fmt y f + length (frame_labels fmt y f) ≤ labels_before fmt y g)%nat.
Proof.
  intros Hlt. rewrite <-labels_before_S. by apply labels_before_mono.
Qed.



Lemma new_id_cases u s v :
  (new_id u s v = 0 ∧ v ∉ u) ∨
  ∃ k : nat, u !! k = Some v ∧ new_id u s v = s + Z.of_nat k.
Proof.
  unfold new_id. destruct (index_of v u) as [k|] eqn:E.
  - right. exists k. split; [by apply index_of_Some|done].
  - left. split; [done|by apply index_of_None].
Qed.

Lemma new_id_lookup u s k v :
  NoDup u → u !! k = Some v → new_id u s v = s + Z.of_nat k.
Proof. intros Hnd Hk. unfold new_id. by erewrite index_of_lookup. Qed.

Lemma frame_labels_nonzero fmt y f : 0 ∉ frame_labels fmt y f.
Proof. unfold frame_labels. rewrite delete_zero_elem. tauto. Qed.

Lemma new_id_background fmt y f s : new_id (frame_labels fmt y f) s 0 = 0.
Proof.
  destruct (new_id_cases (frame_labels fmt y f) s 0) as [[-> _]|(k & Hk & _)]; [done|].
  apply list_elem_of_lookup_2 in Hk. by apply frame_labels_nonzero in Hk.
Qed.

Lemma wrap32_small z : -(2 ^ 31) ≤ z < 2 ^ 31 → Np.wrap32 z = z.
Proof. intros Hz. unfold Np.wrap32. rewrite Z.mod_small; lia. Qed.




Section relabeled_volume.
Context (y : ndarray) (uid : option Z) (fmt : data_format) (T : nat).
Hypothesis Hwf : wf_array y.
Hypothesis Hsh : shape y !! time_axis fmt = Some T.

Let total := labels_before fmt y T.
Let uid0 := start_uid uid (all_uniques fmt y T).

(** The assigned ids are positive and fit the 32 bits of the result. *)
Hypothesis Hpos : 0 < uid0.
Hypothesis Hfit : uid0 + Z.of_nat total ≤ 2 ^ 31.

Lemma new_id_bounds f v :
  (f < T)%nat →
  let n := new_id (frame_labels fmt y f) (uid0 + Z.of_nat (labels_before fmt y f)) v in
  n = 0 ∨ uid0 ≤ n < uid0 + Z.of_nat total.
Proof.
  intros Hf n. subst n.
  destruct (new_id_cases (frame_labels fmt y f)
              (uid0 + Z.of_nat (labels_before fmt y f)) v) as [[-> _]|(k & Hk & ->)];
    [by left|right].
  apply lookup_lt_Some in Hk.
  pose proof (labels_before_lt fmt y f T Hf). unfold total. lia.
Qed.

(** The returned pixel: the new id of its region, unchanged by the cast. *)
Lemma returned_pixel out y' f p v :
  clean_up_annotations y uid fmt = Ok (out, y') →
  (f < T)%nat → p ∈ frame_offsets fmt (shape y) f → data y !! p = Some v →
  data out !! p =
  Some (new_id (frame_labels fmt y f) (uid0 + Z.of_nat (labels_before fmt y f)) v).
Proof.
  intros Hrun Hf Hp Hv.
  destruct (clean_up_annotations_spec y uid fmt T Hsh) as (y2 & Hrun2 & _ & _ & Hbuf).
  rewrite Hrun2 in Hrun. injection Hrun as <- <-.
  unfold Np.astype_int32. cbn [data].
  rewrite list_lookup_fmap, (Hbuf f p Hf Hp), Hv. cbn. f_equal.
  apply wrap32_small.
  destruct (new_id_bounds f v Hf) as [->|?]; lia.
Qed.


End relabeled_volume.



Lemma returned_background y uid fmt T out y' :
  wf_array y → shape y !! time_axis fmt = Some T →
  clean_up_annotations y uid fmt = Ok (out, y') → keeps_background y out.
Proof.
  intros Hwf Hsh Hrun p Hp.
  destruct (clean_up_annotations_spec y uid fmt T Hsh) as (y2 & Hrun2 & _ & _ & Hbuf).
  rewrite Hrun2 in Hrun. injection Hrun as <- <-.
  assert (p < size_of (shape y))%nat as Hlt by (rewrite <-Hwf; by eapply lookup_lt_Some).
  destruct (frames_cover fmt (shape y) T p Hsh Hlt) as (f & Hf & Hin).
  unfold Np.astype_int32. cbn [data].
  rewrite list_lookup_fmap, (Hbuf f p Hf Hin), Hp. cbn.
  by rewrite new_id_background.
Qed.









(** C3, as stated, fails: on Scenario A the default call does not give the
    ids 1, 2 and 3, 4; pixel 1 of frame 0 holds label 1 and receives 5. *)
Lemma scenario_a_not_numbered_from_one :
  ¬ ∃ out y', clean_up_annotations scenario_a None channels_last = Ok (out, y') ∧
      assigns channels_last scenario_a out 0 1 1 ∧
      assigns channels_last scenario_a out 0 2 2 ∧
      assigns channels_last scenario_a out 1 1 3 ∧
      assigns channels_last scenario_a out 1 3 4 ∧
      keeps_background scenario_a out.
Proof.
  intros (out & y' & Hrun & H1 & _).
  assert (data out !! 1%nat = Some 5) as H5.
  { vm_compute in Hrun. injection Hrun as <- _. reflexivity. }
  specialize (H1 1%nat). rewrite H5 in H1.
  assert (Some 5 = Some 1) as [=]. apply H1; [|reflexivity].
  apply elem_of_frame_last, elem_of_block. simpl. lia.
Qed.

(** C3, amended — Scenario A.  For every volume of two 4x4 one-channel frames
    whose frame 0 holds exactly the labels 1 and 2 and whose frame 1 holds
    exactly the labels 1 and 3, the call without a starting id starts at
    1 + 4 = 5: it gives 5 and 6 to the labels 1 and 2 of frame 0, then 7 and 8
    to the labels 1 and 3 of frame 1, and leaves the background at 0. *)
Theorem scenario_a_default_ids (y : ndarray) :
  wf_array y →
  shape y = [2; 4; 4; 1]%nat →
  frame_labels channels_last y 0 = [1; 2] →
  frame_labels channels_last y 1 = [1; 3] →
  ∃ out y', clean_up_annotations y None channels_last = Ok (out, y') ∧
    assigns channels_last y out 0 1 5 ∧
    assigns channels_last y out 0 2 6 ∧
    assigns channels_last y out 1 1 7 ∧
    assigns channels_last y out 1 3 8 ∧
    keeps_background y out.
Proof.
  intros Hwf Hshape H0 H1.
  assert (shape y !! time_axis channels_last = Some 2%nat) as Hsh by (by rewrite Hshape).
  assert (labels_before channels_last y 1 = 2%nat) as Hb1.
  { rewrite labels_before_S, H0. done. }
  assert (labels_before channels_last y 2 = 4%nat) as Hb2.
  { rewrite labels_before_S, Hb1, H1. done. }
  assert (start_uid None (all_uniques channels_last y 2) = 5) as Hstart.
  { unfold start_uid. rewrite sum_lengths_labels, Hb2. done. }
  destruct (clean_up_annotations_spec y None channels_last 2 Hsh) as (y' & Hrun & _).
  exists (Np.astype_int32 y'), y'. split; [done|].
  assert (∀ f k label, (f < 2)%nat →
            frame_labels channels_last y f !! k = Some label →
            assigns channels_last y (Np.astype_int32 y') f label
              (5 + Z.of_nat (labels_before channels_last y f) + Z.of_nat k)) as Hid.
  { intros f k label Hf Hk p Hp Hv.
    rewrite (returned_pixel y None channels_last 2 Hsh) with (y' := y') (f := f) (v := label);
      [|rewrite Hstart; lia|rewrite Hstart, Hb2; lia|done..].
    rewrite Hstart, (new_id_lookup _ _ k) by (done || apply frame_labels_NoDup). done. }
  split_and!.
  - apply (Hid 0%nat 0%nat); [lia|by rewrite H0].
  - apply (Hid 0%nat 1%nat); [lia|by rewrite H0].
  - pose proof (Hid 1%nat 0%nat 1) as H. rewrite Hb1 in H. apply H; [lia|by rewrite H1].
  - pose proof (Hid 1%nat 1%nat 3) as H. rewrite Hb1 in H. apply H; [lia|by rewrite H1].
  - by eapply returned_background.
Qed.

Lemma scenario_a_default_ids_witness :
  ∃ out y', clean_up_annotations scenario_a None channels_last = Ok (out, y') ∧
    assigns channels_last scenario_a out 0 1 5 ∧
    assigns channels_last scenario_a out 0 2 6 ∧
    assigns channels_last scenario_a out 1 1 7 ∧
    assigns channels_last scenario_a out 1 3 8 ∧
    keeps_background scenario_a out.
Proof.
  apply (scenario_a_default_ids scenario_a); reflexivity.
Defined.

(** A starting id that is not positive is outside the theorem above: from 0,
    the first label of the first frame becomes background. *)
Example scenario_a_from_zero :
  (fun r => data r.1) <$> (match clean_up_annotations scenario_a (Some 0) channels_last with
                           | Ok r => Some r
                           | Raise _ => None
                           end) =
  Some [ 0; 0; 0; 0;   0; 0; 0; 0;   0; 0; 1; 1;   0; 0; 1; 1;
         2; 2; 0; 0;   2; 2; 0; 0;   0; 0; 0; 3;   0; 0; 3; 3 ].
Proof. vm_compute. reflexivity. Qed.

(** With the explicit starting id 1 the numbering is the one of the scenario's
    wording. *)
Example scenario_a_from_one :
  clean_up_annotations scenario_a (Some 1) channels_last =
  Ok (NdArray [2; 4; 4; 1]%nat
        [ 0; 1; 1; 0;   0; 1; 1; 0;   0; 0; 2; 2;   0; 0; 2; 2;
          3; 3; 0; 0;   3; 3; 0; 0;   0; 0; 0; 4;   0; 0; 4; 4 ],
      NdArray [2; 4; 4; 1]%nat
        [ 0; 1; 1; 0;   0; 1; 1; 0;   0; 0; 2; 2;   0; 0; 2; 2;
          3; 3; 0; 0;   3; 3; 0; 0;   0; 0; 0; 4;   0; 0; 4; 4 ]).
Proof. vm_compute. reflexivity. Qed.

(** ** count_pairs *)

Example count_pairs_one_cell : count_pairs one_cell (1 # 2) channels_last = Ok 4.
Proof. vm_compute. reflexivity. Qed.

Lemma mapM_result_Ok {A B} (f : A → result B) (g : A → B) (l : list A) :
  (∀ x, x ∈ l → f x = Ok (g x)) → mapM f l = Ok (g <$> l).
Proof.
  induction l as [|x l IH]; intros Hf; [done|].
  cbn. rewrite (Hf x) by apply list_elem_of_here. cbn.
  rewrite IH by (intros; by apply Hf, list_elem_of_further). done.
Qed.

Lemma length_flat_map_const {A B} (f : A → list B) (l : list A) (n : nat) :
  (∀ a, length (f a) = n) → length (flat_map f l) = (length l * n)%nat.
Proof.
  intros Hf. induction l as [|a l IH]; [done|].
  simpl. rewrite length_app, Hf, IH. lia.
Qed.

Lemma length_pair_frame_offsets fmt sh b f :
  length (pair_frame_offsets fmt sh b f) = frame_len fmt sh.
Proof.
  destruct fmt; unfold pair_frame_offsets, frame_len, Np.block.
  - rewrite (length_flat_map_const _ _ (size_of (drop 3 sh))), length_seq; [done|].
    intros c. by rewrite length_seq.
  - by rewrite length_seq.
Qed.





Lemma foldl_max_zero x l : x = 0 → Forall (fun c => c = 0) l → foldl Z.max x l = 0.
Proof.
  intros -> Hl. induction Hl as [|c l -> _ IH]; simpl; [done|]. exact IH.
Qed.


Lemma sum_zero l : Forall (fun c => c = 0) l → foldr Z.add 0 l = 0.
Proof. induction 1 as [|c l -> _ IH]; simpl; lia. Qed.







(** C6 — What the code does on the smallest tensor with one cell: the frame
    holds the background and one label, [np.unique] returns both, and the
    estimate is (2 - 1) * 1 * 2 // 0.5 = 4, where one non-background label
    gives (1 - 1) * 1 * 1 // 0.5 = 0. *)
Theorem count_pairs_counts_background :
  num_cells channels_last one_cell 0 0 = Ok 2 ∧
  distinct_labels (Np.gather (data one_cell)
                     (pair_frame_offsets channels_last (shape one_cell) 0 0)) = 1%nat ∧
  count_pairs one_cell (1 # 2) channels_last = Ok 4 ∧
  floordiv_float ((1 / 1 - 1) * 1 * 1) (1 # 2) = Ok 0.
Proof. split_and!; vm_compute; reflexivity. Qed.

(** ** Archives *)

Example scenario_b_stats :
  (run (trks_stats "b.trks") (World (fs scenario_b_world) [])).1 = Ok JNull ∧
  trace (run (trks_stats "b.trks") (World (fs scenario_b_world) [])).2 =
  [ EvOpen "b.trks" false;
    EvExtract "b.trks" "raw.npy";
    EvExtract "b.trks" "tracked.npy";
    EvExtract "b.trks" "lineages.json";
    EvPrint [PStr "Dataset Statistics: "];
    EvPrint [PStr "Image data shape: "; PShape [2; 2; 2; 2; 1]%nat];
    EvPrint [PStr "Number of lineages (should equal batch size): "; PInt 2];
    EvPrint [PStr "Total number of unique tracks (cells)      - "; PInt 2];
    EvPrint [PStr "Total number of divisions                  - "; PInt 2];
    EvPrint [PStr "Average cell density (cells/100 sq pixels) - "; PFloat (Some (600 # 32))];
    EvPrint [PStr "Average number of frames per track         - "; PInt 1] ].
Proof. split; vm_compute; reflexivity. Qed.

(** ** Strings, extensions, integer keys *)

Lemma chars_lower s : PyStr.chars (PyStr.lower s) = PyStr.lower_ascii <$> PyStr.chars s.
Proof. induction s as [|c s IH]; [done|]. cbn. by f_equal. Qed.

Lemma chars_inj s1 s2 : PyStr.chars s1 = PyStr.chars s2 → s1 = s2.
Proof.
  intros H. rewrite <-(string_of_list_ascii_of_string s1), <-(string_of_list_ascii_of_string s2).
  unfold PyStr.chars in H. by rewrite H.
Qed.

(** A non-empty extension is a suffix of the path. *)
Lemma splitext_suffix p ext :
  (PyStr.splitext p).2 = ext → ext ≠ EmptyString →
  PyStr.chars ext `suffix_of` PyStr.chars p.
Proof.
  unfold PyStr.splitext. case_match; cbn; intros <- Hne; [|done].
  unfold PyStr.chars at 1. rewrite list_ascii_of_string_of_list_ascii.
  apply suffix_drop.
Qed.

(** A path with the extension [.trks] passes the guard of [save_trks]. *)
Lemma trks_extension_endswith p :
  (PyStr.splitext p).2 = ".trks"%string →
  PyStr.endswith (PyStr.lower p) ".trks" = true.
Proof.
  intros Hext. apply splitext_suffix in Hext as [pre Hp]; [|done].
  unfold PyStr.endswith. apply bool_decide_eq_true.
  exists (PyStr.lower_ascii <$> pre). rewrite chars_lower, Hp, fmap_app. done.
Qed.

Lemma int_of_str_of_int k : PyStr.int_of_str (PyStr.str_of_int k) = Some k.
Proof.
  unfold PyStr.int_of_str, PyStr.str_of_int.
  rewrite NilZero.isi.
  - cbn. by rewrite DecimalZ.of_to.
  - destruct k; cbn; [done| |done]. intros [= H]. by apply Unsigned.to_uint_nonnil in H.
  - destruct k; cbn; [done|done|]. intros [= H]. by apply Unsigned.to_uint_nonnil in H.
Qed.

Lemma dict_set_fresh {V} (k : Z) (v : V) (d : dict Z V) :
  k ∉ d.*1 → dict_set k v d = d ++ [(k, v)].
Proof.
  induction d as [|[k' v'] d IH]; intros Hk; [done|].
  cbn in *. rewrite not_elem_of_cons in Hk. destruct Hk as [Hne Hk].
  rewrite decide_False by done. by rewrite IH.
Qed.

(** Narrowing the widened keys of a dictionary gives the dictionary back,
    items in their order. *)
Lemma int_keys_widened_from (g acc : lineage_graph) :
  wf_dict (acc ++ g) →
  for_each (prod_map PyStr.str_of_int id <$> g)
    (fun kv d =>
       match PyStr.int_of_str kv.1 with
       | Some k => Ok (dict_set k kv.2 d)
       | None => Raise ValueError
       end) acc = Ok (acc ++ g).
Proof.
  revert acc. induction g as [|[k v] g IH]; intros acc Hwf.
  - by rewrite app_nil_r.
  - cbn. rewrite int_of_str_of_int. cbn.
    unfold wf_dict in Hwf. rewrite fmap_app, fmap_cons in Hwf.
    apply NoDup_app in Hwf as (Hacc & Hdisj & Hg).
    rewrite dict_set_fresh.
    2:{ intros Hin. apply (Hdisj k Hin). apply list_elem_of_here. }
    rewrite IH; [by rewrite <-app_assoc|].
    unfold wf_dict. rewrite <-app_assoc. cbn [app].
    rewrite fmap_app, fmap_cons. apply NoDup_app. done.
Qed.

Lemma int_keys_widened (g : lineage_graph) :
  wf_dict g → int_keys (JObj (prod_map PyStr.str_of_int id <$> g)) = Ok g.
Proof. intros Hwf. unfold int_keys. by rewrite int_keys_widened_from. Qed.

Lemma int_keys_all_dump (l : list lineage_graph) :
  Forall wf_dict l → int_keys_all (json_dump l) = Ok l.
Proof.
  intros Hwf. unfold int_keys_all, json_dump.
  induction Hwf as [|g l Hg _ IH]; [done|].
  rewrite fmap_cons.
  change (mapM int_keys (?x :: ?k)) with (rbind (int_keys x) (fun y => rbind (mapM int_keys k) (fun r => Ok (y :: r)))).
  rewrite int_keys_widened, IH by done. done.
Qed.

(** ** Running [save_trks] and [load_trks] *)

Ltac io_step :=
  cbn [run mbind mret io_bind io_ret raise lift log fs trace
       Tar.open_read Tar.open_write Tar.add Tar.extract].

Lemma save_trks_run filename lineages raw tracked w :
  PyStr.endswith (PyStr.lower filename) ".trks" = true →
  run (save_trks filename lineages raw tracked) w =
  (Ok tt,
   World (<[filename := FTar (saved_archive lineages raw tracked)]> (fs w))
         (trace w ++ [EvOpen filename true;
                      EvTempFile; EvAdd filename "lineages.json";
                      EvTempFile; EvAdd filename "raw.npy";
                      EvTempFile; EvAdd filename "tracked.npy"])).
Proof.
  intros Hguard. unfold save_trks. rewrite Hguard. cbn [negb].
  io_step. rewrite lookup_insert_eq.
  io_step. rewrite lookup_insert_eq.
  io_step. rewrite lookup_insert_eq.
  rewrite !insert_insert_eq. rewrite <-!app_assoc. done.
Qed.

Lemma load_trks_open filename members w :
  fs w !! filename = Some (FTar members) →
  run (Tar.open_read filename) w =
  (Ok members, World (fs w) (trace w ++ [EvOpen filename false])).
Proof. intros Hf. io_step. by rewrite Hf. Qed.

(** Loading the multi-batch form. *)
Lemma load_trks_run_trks filename members raw tracked j l w :
  fs w !! filename = Some (FTar members) →
  members !! "raw.npy" = Some (BNpy raw) →
  members !! "tracked.npy" = Some (BNpy tracked) →
  (PyStr.splitext filename).2 = ".trks"%string →
  members !! "lineages.json" = Some (BJson j) →
  int_keys_all j = Ok l →
  run (load_trks filename) w =
  (Ok (Trks l raw tracked),
   World (fs w) (trace w ++ [EvOpen filename false;
                             EvExtract filename "raw.npy";
                             EvExtract filename "tracked.npy";
                             EvExtract filename "lineages.json"])).
Proof.
  intros Hf Hraw Htracked Hext Hlin Hkeys. unfold load_trks.
  io_step. rewrite Hf, Hraw. io_step. cbn [np_load]. rewrite Htracked.
  io_step. cbn [np_load]. rewrite Hext. cbn [String.eqb Ascii.eqb Bool.eqb].
  io_step. rewrite Hlin. io_step. cbn [json_loads]. rewrite Hkeys.
  rewrite <-!app_assoc. done.
Qed.

(** C1 — Round trip.  For every path whose extension is [.trks], all
    tensors [raw] and [tracked] and every list of Lineage Graphs keyed by
    integers, [save_trks] succeeds and [load_trks] of the same path then
    returns the tensors [X = raw] and [y = tracked] and the list of Lineage
    Graphs itself, keys as integers. *)
Theorem save_load_round_trip
    (filename : string) (lineages : list lineage_graph) (raw tracked : ndarray)
    (w : world) :
  (PyStr.splitext filename).2 = ".trks"%string →
  Forall wf_dict lineages →
  ∃ w1 w2,
    run (save_trks filename lineages raw tracked) w = (Ok tt, w1) ∧
    run (load_trks filename) w1 = (Ok (Trks lineages raw tracked), w2).
Proof.
  intros Hext Hwf.
  rewrite save_trks_run by (by apply trks_extension_endswith).
  eexists _, _. split; [reflexivity|].
  eapply load_trks_run_trks; cbn [fs];
    [apply lookup_insert_eq|done..|by apply int_keys_all_dump].
Qed.

Lemma save_load_round_trip_witness :
  ∃ w1 w2,
    run (save_trks "b.trks" scenario_b_lineages scenario_b_tracked scenario_b_tracked)
        empty_world = (Ok tt, w1) ∧
    run (load_trks "b.trks") w1 =
    (Ok (Trks scenario_b_lineages scenario_b_tracked scenario_b_tracked), w2).
Proof.
  apply (save_load_round_trip "b.trks" scenario_b_lineages
           scenario_b_tracked scenario_b_tracked empty_world).
  - reflexivity.
  - unfold scenario_b_lineages, wf_dict.
    repeat constructor; rewrite ?elem_of_nil; tauto.
Defined.

(** C10 — Unknown extension.  When the path names a readable archive that
    holds the two tensor members and its extension is neither [.trks] nor
    [.trk], [load_trks] opens the archive, reads both tensors, reads no
    lineage member, and then fails with [UnboundLocalError]: it returns no
    result, and the failure is neither a missing member nor a malformed
    archive. *)
Theorem load_trks_unknown_extension
    (filename : string) (members : gmap string blob) (raw tracked : ndarray)
    (w : world) :
  fs w !! filename = Some (FTar members) →
  members !! "raw.npy" = Some (BNpy raw) →
  members !! "tracked.npy" = Some (BNpy tracked) →
  (PyStr.splitext filename).2 ≠ ".trks"%string →
  (PyStr.splitext filename).2 ≠ ".trk"%string →
  run (load_trks filename) w =
  (Raise UnboundLocalError,
   World (fs w) (trace w ++ [EvOpen filename false;
                             EvExtract filename "raw.npy";
                             EvExtract filename "tracked.npy"])).
Proof.
  intros Hf Hraw Htracked Htrks Htrk. unfold load_trks.
  io_step. rewrite Hf, Hraw. io_step. cbn [np_load]. rewrite Htracked.
  io_step. cbn [np_load].
  rewrite (proj2 (String.eqb_neq _ _) Htrks), (proj2 (String.eqb_neq _ _) Htrk).
  io_step. rewrite <-!app_assoc. done.
Qed.

Lemma load_trks_unknown_extension_witness :
  run (load_trks "B.TRKS")
      (run (save_trks "B.TRKS" scenario_b_lineages scenario_b_tracked scenario_b_tracked)
           empty_world).2 =
  (Raise UnboundLocalError,
   World (fs (run (save_trks "B.TRKS" scenario_b_lineages scenario_b_tracked
                     scenario_b_tracked) empty_world).2)
         (trace (run (save_trks "B.TRKS" scenario_b_lineages scenario_b_tracked
                        scenario_b_tracked) empty_world).2
          ++ [EvOpen "B.TRKS" false;
              EvExtract "B.TRKS" "raw.npy";
              EvExtract "B.TRKS" "tracked.npy"])).
Proof.
  apply (load_trks_unknown_extension "B.TRKS"
           (saved_archive scenario_b_lineages scenario_b_tracked scenario_b_tracked)
           scenario_b_tracked scenario_b_tracked);
    [reflexivity|reflexivity|reflexivity|discriminate|discriminate].
Defined.

(** The guard of [save_trks] and the dispatch of [load_trks] disagree on
    upper case and on a bare [.trks] file name: such an archive is written
    and cannot be loaded back. *)
Example saved_but_not_loadable :
  (run (save_trks ".trks" [] scenario_b_tracked scenario_b_tracked) empty_world).1 = Ok tt ∧
  (run (load_trks ".trks")
       (run (save_trks ".trks" [] scenario_b_tracked scenario_b_tracked) empty_world).2).1
  = Raise UnboundLocalError.
Proof. split; vm_compute; reflexivity. Qed.

(** C5, as stated, fails: [A.TRKS] does not end in [.trks], and [save_trks]
    writes the archive instead of raising. *)
Lemma save_trks_accepts_upper_case :
  PyStr.endswith "A.TRKS" ".trks" = false ∧
  run (save_trks "A.TRKS" [] scenario_b_tracked scenario_b_tracked) empty_world
  ≠ (Raise ValueError, empty_world).
Proof. split; [vm_compute; reflexivity|]. vm_compute. discriminate. Qed.

(** The same for the statistics: the extension [.TRK] is neither [.trk] nor
    [.trks], and [trks_stats] goes on to open the file. *)
Example trks_stats_accepts_upper_case :
  (PyStr.splitext "A.TRK").2 ≠ ".trk"%string ∧
  (PyStr.splitext "A.TRK").2 ≠ ".trks"%string ∧
  run (trks_stats "A.TRK") empty_world =
  (Raise FileNotFoundError, World ∅ [EvOpen "A.TRK" false]).
Proof. split_and!; [discriminate|discriminate|vm_compute; reflexivity]. Qed.

(** C5, amended — Extension guard.  Both guards compare in lower case.  For
    every path whose lower-case form does not end in [.trks], [save_trks]
    raises [ValueError] and leaves the file system and the trace as they
    were; for every path whose lower-cased extension is neither [.trks] nor
    [.trk], [trks_stats] raises [ValueError], again with no operation on the
    file system and nothing printed. *)
Theorem extension_guard
    (filename : string) (lineages : list lineage_graph) (raw tracked : ndarray)
    (w : world) :
  (PyStr.endswith (PyStr.lower filename) ".trks" = false →
   run (save_trks filename lineages raw tracked) w = (Raise ValueError, w)) ∧
  (PyStr.lower (PyStr.splitext filename).2 ≠ ".trks"%string →
   PyStr.lower (PyStr.splitext filename).2 ≠ ".trk"%string →
   run (trks_stats filename) w = (Raise ValueError, w)).
Proof.
  split.
  - intros Hguard. unfold save_trks. rewrite Hguard. done.
  - intros Htrks Htrk. unfold trks_stats.
    rewrite (proj2 (String.eqb_neq _ _) Htrks), (proj2 (String.eqb_neq _ _) Htrk). done.
Qed.

Lemma extension_guard_witness :
  run (save_trks "a.npz" [] scenario_b_tracked scenario_b_tracked) empty_world
  = (Raise ValueError, empty_world) ∧
  run (trks_stats "a.npz") empty_world = (Raise ValueError, empty_world).
Proof.
  destruct (extension_guard "a.npz" [] scenario_b_tracked scenario_b_tracked empty_world)
    as [Hsave Hstats].
  split; [apply Hsave; reflexivity|apply Hstats; discriminate].
Defined.

(** ** Running [trks_stats] *)

Lemma sum_opt_mapM (l : list (option Q)) :
  foldr (fun x acc => a ← acc; v ← x; Some (v + a)%Q) (Some 0%Q) l =
  foldr Qplus 0%Q <$> mapM id l.
Proof.
  induction l as [|x l IH]; [done|].
  cbn [foldr]. rewrite IH.
  change (mapM id (x :: l)) with (y ← id x; k ← mapM id l; mret (y :: k)).
  destruct x as [v|], (mapM id l) as [k|]; done.
Qed.

Lemma length_mapM_id (l : list (option Q)) k : mapM id l = Some k → length k = length l.
Proof. intros H%mapM_Some. symmetry. by eapply Forall2_length. Qed.

(** [np.average] is the mean, missing when a value is. *)
Lemma np_average_mean_opt (l : list npfloat) : np_average l = Report.mean_opt l.
Proof.
  unfold Report.mean_opt. destruct l as [|x l]; [done|].
  unfold np_average. rewrite sum_opt_mapM.
  destruct (mapM id (x :: l)) as [k|] eqn:Hk; [|done].
  pose proof (length_mapM_id _ _ Hk) as Hlen. rewrite <-Hlen.
  destruct k; [by simpl in Hlen|done].
Qed.

Lemma np_average_mean (l : list Q) : np_average (Some <$> l) = Report.mean l.
Proof.
  rewrite np_average_mean_opt. unfold Report.mean_opt.
  rewrite (mapM_fmap_Some id Some) by done. done.
Qed.

Lemma batch_frames_run y b B T :
  shape y !! 0%nat = Some B → shape y !! 1%nat = Some T → (b < B)%nat →
  batch_frames y b = Ok (Report.frames_of y b).
Proof.
  intros HB HT Hb. unfold batch_frames, Report.frames_of, tuple_get.
  rewrite HB, HT. cbn. destruct (Nat.leb_spec B b); [lia|done].
Qed.

Lemma avg_cells_run y b B T :
  shape y !! 0%nat = Some B → shape y !! 1%nat = Some T → (b < B)%nat →
  avg_cells y b =
  Ok (Report.mean ((fun frame => inject_Z (Report.cells_in_frame frame))
                     <$> Report.frames_of y b)).
Proof.
  intros HB HT Hb. unfold avg_cells. rewrite (batch_frames_run y b B T) by done.
  cbn. f_equal. rewrite <-np_average_mean, <-list_fmap_compose. done.
Qed.

Lemma frame_count_run y b B T cell :
  shape y !! 0%nat = Some B → shape y !! 1%nat = Some T → (b < B)%nat →
  frame_count y b cell = Ok (Report.frames_with y b cell).
Proof.
  intros HB HT Hb. unfold frame_count. rewrite (batch_frames_run y b B T) by done.
  cbn. unfold Report.frames_with. do 3 f_equal.
  apply list_filter_iff. intros frame. apply unique_elem.
Qed.

(** The dictionary of the [daughters] fields of a Lineage Graph. *)
Lemma daughters_of_from (g acc : lineage_graph) :
  wf_dict (acc ++ g) →
  Forall (fun kv => is_Some (Report.daughters kv.2)) g →
  for_each g (fun kv d => v ← getitem kv.2 "daughters"; Ok (dict_set kv.1 v d)) acc =
  Ok (acc ++ ((fun kv => (kv.1, default JNull (Report.daughters kv.2))) <$> g)).
Proof.
  intros Hwf Hd. revert acc Hwf.
  induction Hd as [|[k fields] g [d Hk] _ IH]; intros acc Hwf.
  - by rewrite app_nil_r.
  - cbn [for_each fst snd]. cbn [fst snd] in Hk.
    assert (getitem fields "daughters" = Ok d) as ->.
    { unfold getitem. unfold Report.daughters in Hk.
      destruct fields; try done. by rewrite Hk. }
    unfold wf_dict in Hwf. rewrite fmap_app, fmap_cons in Hwf.
    pose proof Hwf as Hwf'. apply NoDup_app in Hwf' as (_ & Hdisj & _).
    cbn. rewrite dict_set_fresh.
    2:{ intros Hin. apply (Hdisj k Hin). apply list_elem_of_here. }
    rewrite IH.
    + rewrite <-app_assoc. cbn. by rewrite Hk.
    + unfold wf_dict. rewrite <-app_assoc. cbn [app].
      by rewrite fmap_app, fmap_cons.
Qed.

Lemma daughters_of_run (g : lineage_graph) :
  wf_dict g →
  Forall (fun kv => is_Some (Report.daughters kv.2)) g →
  daughters_of g = Ok ((fun kv => (kv.1, default JNull (Report.daughters kv.2))) <$> g).
Proof. intros Hwf Hd. unfold daughters_of. by rewrite daughters_of_from. Qed.

(** One batch item of the division loop. *)
Lemma division_step_run y B T b (g : lineage_graph) st :
  shape y !! 0%nat = Some B → shape y !! 1%nat = Some T → (b < B)%nat →
  Forall (fun kv => is_Some (Report.daughters kv.2)) g →
  division_step y (b, (fun kv => (kv.1, default JNull (Report.daughters kv.2))) <$> g) st =
  Ok (st.1.1 + Z.of_nat (length g),
      st.1.2 + Z.of_nat (length (filter (fun kv => Report.divides kv.2 = true) g)),
      st.2 ++ [Report.mean ((fun kv => inject_Z (Report.frames_with y b kv.1)) <$> g)]).
Proof.
  intros HB HT Hb Hd. unfold division_step. cbn [fst snd].
  rewrite (mapM_result_Ok _ (Report.frames_with y b)).
  2:{ intros cell _. by eapply frame_count_run. }
  cbn. rewrite length_fmap. do 2 f_equal.
  - do 3 f_equal.
    induction Hd as [|kv g [d Hk] _ IH]; [done|].
    rewrite fmap_cons. destruct (truthy d) eqn:Ht.
    + rewrite !filter_cons_True; [simpl; by rewrite IH|..].
      * unfold Report.divides. by rewrite Hk.
      * cbn. by rewrite Hk.
    + rewrite !filter_cons_False; [done|..].
      * unfold Report.divides. rewrite Hk, Ht. done.
      * cbn. rewrite Hk. cbn. rewrite Ht. done.
  - do 2 f_equal. rewrite <-np_average_mean, <-!list_fmap_compose. done.
Qed.

Lemma division_loop_run y B T (gs : list lineage_graph) k st :
  shape y !! 0%nat = Some B → shape y !! 1%nat = Some T →
  (k + length gs ≤ B)%nat →
  Forall (Forall (fun kv => is_Some (Report.daughters kv.2))) gs →
  for_each (zip (seq k (length gs))
                ((fun g : lineage_graph =>
                    (fun kv => (kv.1, default JNull (Report.daughters kv.2))) <$> g) <$> gs))
           (division_step y) st =
  Ok (st.1.1 + Z.of_nat (sum_list (length <$> gs)),
      st.1.2 + Z.of_nat (sum_list ((fun g : lineage_graph =>
                 length (filter (fun kv => Report.divides kv.2 = true) g)) <$> gs)),
      st.2 ++ ((fun bg : nat * lineage_graph =>
                  Report.mean ((fun kv => inject_Z (Report.frames_with y bg.1 kv.1)) <$> bg.2))
                 <$> zip (seq k (length gs)) gs)).
Proof.
  intros HB HT Hk Hd. revert k st Hk.
  induction Hd as [|g gs Hg _ IH]; intros k st Hk.
  - cbn. rewrite app_nil_r, !Z.add_0_r. by destruct st as [[??]?].
  - cbn [length seq fmap list_fmap zip zip_with for_each].
    rewrite (division_step_run y B T) by (done || simpl in Hk; lia).
    cbn [rbind]. rewrite IH by (simpl in Hk; lia). cbn [fst snd].
    f_equal. f_equal; [f_equal|by rewrite <-app_assoc].
    + cbn. lia.
    + cbn. lia.
Qed.

(** ** What [load_trks] returns is made of dictionaries *)

Lemma dict_set_keys {V} (k : Z) (v : V) (d : dict Z V) :
  (dict_set k v d).*1 = if decide (k ∈ d.*1) then d.*1 else d.*1 ++ [k].
Proof.
  induction d as [|[k' v'] d IH]; [done|].
  cbn [dict_set]. destruct (decide (k' = k)) as [->|Hne].
  - rewrite decide_True by apply list_elem_of_here. done.
  - rewrite !fmap_cons, IH. cbn [fst].
    destruct (decide (k ∈ d.*1)) as [Hin|Hin].
    + rewrite decide_True by (by apply list_elem_of_further). done.
    + rewrite decide_False; [done|]. rewrite elem_of_cons.
      intros [->|?]; [by apply Hne|done].
Qed.

Lemma dict_set_wf {V} (k : Z) (v : V) (d : dict Z V) :
  wf_dict d → wf_dict (dict_set k v d).
Proof.
  unfold wf_dict. intros Hd. rewrite dict_set_keys. case_decide; [done|].
  apply NoDup_app. split_and!; [done| |apply NoDup_singleton].
  intros x Hx ->%list_elem_of_singleton. done.
Qed.

Lemma int_keys_wf (j : json) (g : list (Z * json)) : int_keys j = Ok g → wf_dict g.
Proof.
  unfold int_keys. destruct j as [| | | | |m]; try done.
  assert (∀ acc, wf_dict acc →
            for_each m
              (fun kv d =>
                 match PyStr.int_of_str kv.1 with
                 | Some k => Ok (dict_set k kv.2 d)
                 | None => Raise ValueError
                 end) acc = Ok g → wf_dict g) as Hgen.
  { induction m as [|[s v] m IH]; intros acc Hacc; cbn [for_each].
    - by intros [= <-].
    - cbn [fst snd]. destruct (PyStr.int_of_str s) as [k|]; [|done].
      cbn [rbind]. apply IH. by apply dict_set_wf. }
  apply Hgen. unfold wf_dict. constructor.
Qed.

Lemma int_keys_all_wf (j : json) (l : list (list (Z * json))) :
  int_keys_all j = Ok l → Forall wf_dict l.
Proof.
  unfold int_keys_all. destruct j as [| | | |js|]; try done.
  revert l. induction js as [|j js IH]; intros l.
  - intros [= <-]. constructor.
  - change (mapM int_keys (j :: js))
      with (rbind (int_keys j) (fun g => rbind (mapM int_keys js) (fun r => Ok (g :: r)))).
    destruct (int_keys j) as [g|] eqn:Hg; [|done]. cbn [rbind].
    destruct (mapM int_keys js) as [r|] eqn:Hr; [|done]. cbn [rbind].
    intros [= <-]. constructor; [by eapply int_keys_wf|by apply IH].
Qed.

Lemma load_trks_wf filename w t w' :
  run (load_trks filename) w = (Ok t, w') → Forall wf_dict (lineages t).
Proof.
  unfold load_trks. io_step.
  repeat (case_match; io_step; try done);
    intros; simplify_eq/=;
    first [by eapply int_keys_all_wf
          |constructor; [by eapply int_keys_wf|constructor]].
Qed.

Lemma run_bind {A B} (m : io A) (k : A → io B) (w : world) :
  run (m ≫= k) w =
  match run m w with
  | (Ok a, w') => run (k a) w'
  | (Raise e, w') => (Raise e, w')
  end.
Proof. done. Qed.




(** Scenario B: two tracks and two divisions are printed. *)
Example scenario_b_totals :
  Report.total_tracks (Trks scenario_b_lineages scenario_b_tracked scenario_b_tracked) = 2 ∧
  Report.total_divisions (Trks scenario_b_lineages scenario_b_tracked scenario_b_tracked) = 2.
Proof. split; vm_compute; reflexivity. Qed.

(* ===================================================================== *)
(** * Further properties of the relabeler *)
(* ===================================================================== *)











Section relabel_twice.
Context (y : ndarray) (uid : option Z) (fmt : data_format) (T : nat).
Context (out y' : ndarray).
Hypothesis Hwf : wf_array y.
Hypothesis Hsh : shape y !! time_axis fmt = Some T.
Hypothesis Hpos : 0 < start_uid uid (all_uniques fmt y T).
Hypothesis Hfit :
  start_uid uid (all_uniques fmt y T) + Z.of_nat (labels_before fmt y T) ≤ 2 ^ 31.
Hypothesis Hrun : clean_up_annotations y uid fmt = Ok (out, y').





End relabel_twice.



Lemma size_of_snoc_one sh : size_of (sh ++ [1%nat]) = size_of sh.
Proof. induction sh as [|n sh IH]; simpl; [done|]. by rewrite IH. Qed.

Lemma frame_offsets_single_channel T rest f :
  frame_offsets channels_first (1%nat :: T :: rest) f =
  frame_offsets channels_last (T :: rest ++ [1%nat]) f.
Proof.
  change (Np.block (0 * T + f) (size_of rest) ++ [] =
          Np.block f (size_of (rest ++ [1%nat]))).
  rewrite app_nil_r, size_of_snoc_one. done.
Qed.

Lemma foldl_ext_all {A B} (f g : A → B → A) (l : list B) (a : A) :
  (∀ x b, f x b = g x b) → foldl f a l = foldl g a l.
Proof.
  intros Hfg. revert a. induction l as [|b l IH]; intros a; [done|].
  cbn. by rewrite Hfg, IH.
Qed.

(** X4: with one channel the two layouts hold the same buffer, and the
    relabeler computes the same buffer for both: channels first on shape
    (1, T, ...) and channels last on shape (T, ..., 1) agree, in the returned
    array and in the caller's array. *)
Theorem clean_up_annotations_single_channel
    (T : nat) (rest : list nat) (buf : list Z) (uid : option Z) :
  ∃ new new',
    clean_up_annotations (NdArray (1%nat :: T :: rest) buf) uid channels_first =
      Ok (NdArray (1%nat :: T :: rest) new, NdArray (1%nat :: T :: rest) new') ∧
    clean_up_annotations (NdArray (T :: rest ++ [1%nat]) buf) uid channels_last =
      Ok (NdArray (T :: rest ++ [1%nat]) new, NdArray (T :: rest ++ [1%nat]) new').
Proof.
  unfold clean_up_annotations, tuple_get. cbn [shape data time_axis lookup list_lookup].
  cbn [mbind result_bind rbind].
  assert (all_uniques channels_first (NdArray (1%nat :: T :: rest) buf) T =
          all_uniques channels_last (NdArray (T :: rest ++ [1%nat]) buf) T) as ->.
  { unfold all_uniques. cbn [shape data]. apply list_fmap_ext. intros i f _.
    by rewrite frame_offsets_single_channel. }
  rewrite (foldl_ext_all (relabel_frame channels_first (1%nat :: T :: rest))
                         (relabel_frame channels_last (T :: rest ++ [1%nat]))).
  2:{ intros st fu. unfold relabel_frame. by rewrite frame_offsets_single_channel. }
  unfold Np.astype_int32. cbn [shape data]. eexists _, _. split; reflexivity.
Qed.

(* ===================================================================== *)
(** * Further properties of the pair estimator *)
(* ===================================================================== *)

(** X5: a tensor whose time axis is empty has no average to take: with a
    non-empty batch, [count_pairs] raises [ZeroDivisionError], whatever the
    probability and the number of axes. *)
Theorem count_pairs_no_frames
    (y : ndarray) (p : Q) (fmt : data_format) (B : nat) :
  shape y !! 0%nat = Some B → (0 < B)%nat →
  shape y !! zaxis fmt = Some 0%nat →
  count_pairs y p fmt = Raise ZeroDivisionError.
Proof.
  intros HB Hpos HT. unfold count_pairs, tuple_get. rewrite HB. cbn.
  destruct B as [|B]; [lia|]. cbn [seq for_each].
  unfold cell_pairings at 1, tuple_get. rewrite HT. done.
Qed.

Lemma count_pairs_no_frames_witness :
  count_pairs (NdArray [1; 0; 4; 4; 1]%nat []) (1 # 2) channels_last
  = Raise ZeroDivisionError.
Proof.
  apply (count_pairs_no_frames _ _ _ 1); [reflexivity|lia|reflexivity].
Defined.

Lemma cell_pairings_formula fmt y b T p :
  (5 ≤ length (shape y))%nat → shape y !! zaxis fmt = Some T → (0 < T)%nat →
  cell_pairings fmt y p b = floordiv_float (non_self_pairings fmt y T b) p.
Proof.
  intros Hdim Hsh HT.
  set (g := fun f => Z.of_nat (length (Np.unique
              (Np.gather (data y) (pair_frame_offsets fmt (shape y) b f))))).
  assert (mapM (num_cells fmt y b) (seq 0 T) = Ok (g <$> seq 0 T)) as Hmap.
  { apply mapM_result_Ok. intros f _. unfold num_cells.
    destruct (Nat.ltb_spec (length (shape y)) 5); [lia|done]. }
  unfold cell_pairings, tuple_get. rewrite Hsh. cbn.
  rewrite Hmap. cbn. unfold floordiv.
  destruct (Z.eqb_spec (Z.of_nat T) 0); [lia|]. cbn.
  unfold non_self_pairings. fold g.
  destruct T as [|T]; [lia|]. done.
Qed.

Lemma count_pairs_sum fmt y p T (l : list nat) (a : Z) :
  (5 ≤ length (shape y))%nat → shape y !! zaxis fmt = Some T → (0 < T)%nat →
  ¬ (p == 0)%Q →
  for_each l (fun b total => pairs ← cell_pairings fmt y p b; Ok (total + pairs)) a =
  Ok (a + foldr Z.add 0
            ((fun b => Qfloor (inject_Z (non_self_pairings fmt y T b) / p)) <$> l)).
Proof.
  intros Hdim Hsh HT Hp. revert a. induction l as [|b l IH]; intros a.
  - cbn. f_equal. lia.
  - cbn [for_each]. rewrite (cell_pairings_formula fmt y b T) by done.
    unfold floordiv_float at 1.
    destruct (Qeq_bool p 0) eqn:E; [by apply Qeq_bool_eq in E|].
    cbn [mbind result_bind rbind]. rewrite IH, fmap_cons. cbn [foldr].
    f_equal. lia.
Qed.

(** X6: a probability of zero is a division by zero: on a tensor of five
    axes with a batch item and a frame, [count_pairs] raises
    [ZeroDivisionError]. *)
Theorem count_pairs_zero_probability
    (y : ndarray) (fmt : data_format) (B T : nat) :
  length (shape y) = 5%nat →
  shape y !! 0%nat = Some B → (0 < B)%nat →
  shape y !! zaxis fmt = Some T → (0 < T)%nat →
  count_pairs y 0 fmt = Raise ZeroDivisionError.
Proof.
  intros Hdim HB Hpos HT HTpos. unfold count_pairs, tuple_get. rewrite HB. cbn.
  destruct B as [|B]; [lia|]. cbn [seq for_each].
  rewrite (cell_pairings_formula fmt y 0 T) by (done || lia). done.
Qed.

Lemma count_pairs_zero_probability_witness :
  count_pairs one_cell 0 channels_last = Raise ZeroDivisionError.
Proof.
  apply (count_pairs_zero_probability one_cell channels_last 1 1);
    [reflexivity|reflexivity|lia|reflexivity|lia].
Defined.

(** X7: the five indices of the frame slice need five axes: on a tensor of
    fewer axes that has a batch item and a frame, [count_pairs] raises
    [IndexError]. *)
Theorem count_pairs_too_few_axes
    (y : ndarray) (p : Q) (fmt : data_format) (B T : nat) :
  (length (shape y) < 5)%nat →
  shape y !! 0%nat = Some B → (0 < B)%nat →
  shape y !! zaxis fmt = Some T → (0 < T)%nat →
  count_pairs y p fmt = Raise IndexError.
Proof.
  intros Hdim HB Hpos HT HTpos. unfold count_pairs, tuple_get. rewrite HB. cbn.
  destruct B as [|B]; [lia|]. cbn [seq for_each].
  unfold cell_pairings at 1, tuple_get. rewrite HT. cbn.
  destruct T as [|T]; [lia|]. cbn [seq].
  change (mapM ?f (?x :: ?l)) with (rbind (f x) (fun y => rbind (mapM f l) (fun r => Ok (y :: r)))).
  unfold num_cells at 1. destruct (Nat.ltb_spec (length (shape y)) 5); [done|lia].
Qed.

Lemma count_pairs_too_few_axes_witness :
  count_pairs (NdArray [1; 2; 2; 2]%nat [0; 1; 1; 0; 0; 2; 2; 0]) (1 # 2) channels_last
  = Raise IndexError.
Proof.
  apply (count_pairs_too_few_axes _ _ _ 1 2); [simpl; lia|reflexivity|lia|reflexivity|lia].
Defined.





Lemma gather_zeros n pos : Np.gather (replicate n 0) pos = replicate (length pos) 0.
Proof.
  unfold Np.gather. induction pos as [|p pos IH]; [done|].
  cbn [fmap list_fmap length replicate]. rewrite <-IH. f_equal.
  destruct (replicate n 0 !! p) as [z|] eqn:E; [|done].
  apply lookup_replicate in E as [-> _]. done.
Qed.

Lemma unique_zeros m : Np.unique (replicate m 0) = match m with O => [] | S _ => [0] end.
Proof.
  induction m as [|m IH]; [done|].
  cbn [replicate Np.unique foldr]. fold (Np.unique (replicate m 0)). rewrite IH.
  by destruct m.
Qed.

Lemma sum_ones l : Forall (fun c => c = 1) l → foldr Z.add 0 l = Z.of_nat (length l).
Proof. induction 1 as [|c l -> _ IH]; simpl; lia. Qed.

Lemma foldl_max_ones x l : x = 1 → Forall (fun c => c = 1) l → foldl Z.max x l = 1.
Proof.
  intros -> Hl. induction Hl as [|c l -> _ IH]; simpl; [done|]. exact IH.
Qed.

(** X9: a tensor without cells needs no pairs.  On a tensor of five axes
    with a frame whose buffer holds background only, [count_pairs] returns 0
    for every probability other than zero. *)
Theorem count_pairs_background_only
    (y : ndarray) (p : Q) (fmt : data_format) (T n : nat) :
  length (shape y) = 5%nat →
  shape y !! zaxis fmt = Some T → (0 < T)%nat →
  data y = replicate n 0 →
  ¬ (p == 0)%Q →
  count_pairs y p fmt = Ok 0.
Proof.
  intros Hdim HT HTpos Hdata Hp. unfold count_pairs, tuple_get.
  destruct (shape y) as [|B sh] eqn:Hshape; [done|]. cbn.
  rewrite (count_pairs_sum fmt y p T) by (rewrite ?Hshape; done || simpl in *; lia).
  f_equal. rewrite Z.add_0_l.
  replace ((fun b => Qfloor (inject_Z (non_self_pairings fmt y T b) / p)) <$> seq 0 B)
    with ((fun _ : nat => 0) <$> seq 0 B).
  { induction (seq 0 B) as [|b l IH]; [done|]. rewrite fmap_cons. cbn [foldr]. lia. }
  apply list_fmap_ext. intros _ b _.
  assert (non_self_pairings fmt y T b = 0) as ->.
  2:{ unfold Qdiv, Qmult, Qfloor. cbn. done. }
  unfold non_self_pairings. rewrite Hdata.
  set (m := length (pair_frame_offsets fmt (shape y) b 0)).
  assert (∀ f, Z.of_nat (length (Np.unique (Np.gather (replicate n 0)
                 (pair_frame_offsets fmt (shape y) b f))))
               = match m with O => 0 | S _ => 1 end) as Hc.
  { intros f. rewrite gather_zeros, unique_zeros.
    unfold m. rewrite !length_pair_frame_offsets.
    by destruct (frame_len fmt (shape y)). }
  rewrite (list_fmap_ext _ (fun _ => match m with O => 0 | S _ => 1 end) (seq 0 T))
    by (intros; apply Hc).
  destruct T as [|T]; [lia|].
  set (cells := (fun _ : nat => match m with O => 0 | S _ => 1 end) <$> seq 0 (S T)).
  assert (length cells = S T) as Hlen by (unfold cells; by rewrite length_fmap, length_seq).
  destruct m.
  - assert (Forall (fun c => c = 0) cells) as Hz.
    { unfold cells. apply Forall_fmap, Forall_forall. done. }
    rewrite (sum_zero _ Hz).
    destruct cells as [|c cells']; [done|]. cbn [hd tl].
    rewrite foldl_max_zero; [lia|by inv Hz|by inv Hz].
  - assert (Forall (fun c => c = 1) cells) as Ho.
    { unfold cells. apply Forall_fmap, Forall_forall. done. }
    rewrite (sum_ones _ Ho), Hlen, Z.div_same by lia. lia.
Qed.

Lemma count_pairs_background_only_witness :
  count_pairs (NdArray [1; 2; 2; 1; 1]%nat [0; 0; 0; 0]) (1 # 2) channels_last = Ok 0.
Proof.
  apply (count_pairs_background_only _ _ _ 2 4);
    [reflexivity|reflexivity|lia|reflexivity|discriminate].
Defined.

(* ===================================================================== *)
(** * Further properties of the archive codec *)
(* ===================================================================== *)

Lemma read_only_ret {A} (a : A) : read_only (mret a).
Proof. by intros w. Qed.

Lemma read_only_raise {A} (e : exn) : read_only (raise (A:=A) e).
Proof. by intros w. Qed.

Lemma read_only_lift {A} (r : result A) : read_only (lift r).
Proof. by intros w. Qed.

Lemma read_only_log ev : read_only (log ev).
Proof. by intros w. Qed.

Lemma read_only_bind {A B} (m : io A) (k : A → io B) :
  read_only m → (∀ a, read_only (k a)) → read_only (m ≫= k).
Proof.
  intros Hm Hk w. rewrite run_bind. specialize (Hm w).
  destruct (run m w) as [[a|e] w1]; cbn [snd] in *; [|done].
  by rewrite Hk.
Qed.

Lemma read_only_open_read path : read_only (Tar.open_read path).
Proof.
  intros w. unfold Tar.open_read. io_step. by repeat case_match.
Qed.

Lemma read_only_extract path members member : read_only (Tar.extract path members member).
Proof.
  unfold Tar.extract. apply read_only_bind; [apply read_only_log|].
  intros _. case_match; [apply read_only_ret|apply read_only_raise].
Qed.

Ltac read_only_step :=
  first
    [ apply read_only_ret | apply read_only_raise | apply read_only_lift
    | apply read_only_log | apply read_only_open_read | apply read_only_extract
    | apply read_only_bind; [|intros ?] ].

Lemma load_trks_read_only filename : read_only (load_trks filename).
Proof.
  unfold load_trks. repeat read_only_step.
  - repeat case_match; repeat read_only_step.
  - case_match; read_only_step.
Qed.

Lemma trks_stats_read_only filename : read_only (trks_stats filename).
Proof.
  unfold trks_stats. case_match; [read_only_step|].
  apply read_only_bind; [apply load_trks_read_only|intros t].
  repeat read_only_step.
Qed.

(** X10: loading and summarising never write.  Whatever the path and the
    state of the file system, and whether they return or raise, [load_trks]
    and [trks_stats] leave every file as it was. *)
Theorem load_and_stats_read_only (filename : string) (w : world) :
  fs (run (load_trks filename) w).2 = fs w ∧
  fs (run (trks_stats filename) w).2 = fs w.
Proof.
  split; [apply load_trks_read_only|apply trks_stats_read_only].
Qed.

(** X11: [save_trks] writes one file.  Whatever the arguments, and whether
    it returns or raises, every other path holds after the call what it held
    before. *)
Theorem save_trks_other_paths
    (filename path : string) (lineages : list (list (Z * json)))
    (raw tracked : ndarray) (w : world) :
  path ≠ filename →
  fs (run (save_trks filename lineages raw tracked) w).2 !! path = fs w !! path.
Proof.
  intros Hne. unfold save_trks.
  destruct (PyStr.endswith (PyStr.lower filename) ".trks") eqn:Hguard; cbn [negb]; [|done].
  pose proof (save_trks_run filename lineages raw tracked w Hguard) as Hrun.
  unfold save_trks in Hrun. rewrite Hguard in Hrun. cbn [negb] in Hrun.
  rewrite Hrun. cbn [snd fs]. by rewrite lookup_insert_ne.
Qed.

Lemma save_trks_other_paths_witness :
  fs (run (save_trks "b.trks" scenario_b_lineages scenario_b_tracked scenario_b_tracked)
          scenario_b_world).2 !! "a.trks"
  = fs scenario_b_world !! "a.trks".
Proof. apply save_trks_other_paths. discriminate. Defined.

(** X12: the single-batch form is normalised.  For a path with the
    extension [.trk] whose archive holds the two tensors and the member
    [lineage.json] with one Lineage Graph under widened keys, [load_trks]
    returns the graph with integer keys as a one-element list; a member
    [lineages.json] is not consulted. *)
Theorem load_trks_single_batch
    (filename : string) (members : gmap string blob) (raw tracked : ndarray)
    (g : list (Z * json)) (w : world) :
  fs w !! filename = Some (FTar members) →
  members !! "raw.npy" = Some (BNpy raw) →
  members !! "tracked.npy" = Some (BNpy tracked) →
  (PyStr.splitext filename).2 = ".trk"%string →
  members !! "lineage.json" = Some (BJson (JObj (prod_map PyStr.str_of_int id <$> g))) →
  wf_dict g →
  run (load_trks filename) w =
  (Ok (Trks [g] raw tracked),
   World (fs w) (trace w ++ [EvOpen filename false;
                             EvExtract filename "raw.npy";
                             EvExtract filename "tracked.npy";
                             EvExtract filename "lineage.json"])).
Proof.
  intros Hf Hraw Htracked Hext Hlin Hwf. unfold load_trks.
  io_step. rewrite Hf, Hraw. io_step. cbn [np_load]. rewrite Htracked.
  io_step. cbn [np_load]. rewrite Hext. cbn [String.eqb Ascii.eqb Bool.eqb].
  io_step. rewrite Hlin. io_step. cbn [json_loads].
  rewrite (int_keys_widened g Hwf). rewrite <-!app_assoc. done.
Qed.

Lemma load_trks_single_batch_witness :
  run (load_trks "cell.trk") single_batch_world =
  (Ok (Trks [[(7, scenario_b_record 8)]] scenario_a scenario_a),
   World (fs single_batch_world)
         (trace single_batch_world ++
          [EvOpen "cell.trk" false;
           EvExtract "cell.trk" "raw.npy";
           EvExtract "cell.trk" "tracked.npy";
           EvExtract "cell.trk" "lineage.json"])).
Proof.
  apply (load_trks_single_batch "cell.trk" single_batch_archive scenario_a scenario_a
           [(7, scenario_b_record 8)] single_batch_world).
  - reflexivity.
  - reflexivity.
  - reflexivity.
  - reflexivity.
  - reflexivity.
  - unfold wf_dict. repeat constructor; rewrite ?elem_of_nil; tauto.
Defined.

Lemma load_trks_run_unbound filename members raw tracked w :
  fs w !! filename = Some (FTar members) →
  members !! "raw.npy" = Some (BNpy raw) →
  members !! "tracked.npy" = Some (BNpy tracked) →
  (PyStr.splitext filename).2 ≠ ".trks"%string →
  (PyStr.splitext filename).2 ≠ ".trk"%string →
  (run (load_trks filename) w).1 = Raise UnboundLocalError.
Proof.
  intros Hf Hraw Htracked Htrks Htrk. unfold load_trks.
  io_step. rewrite Hf, Hraw. io_step. cbn [np_load]. rewrite Htracked.
  io_step. cbn [np_load].
  rewrite (proj2 (String.eqb_neq _ _) Htrks), (proj2 (String.eqb_neq _ _) Htrk).
  done.
Qed.

Lemma trks_suffix_not_trk (pre pre' : list ascii) :
  pre ++ PyStr.chars ".trks" = pre' ++ PyStr.chars ".trk" → False.
Proof.
  intros H. apply (f_equal last) in H.
  change (PyStr.chars ".trks") with (PyStr.chars ".trk" ++ ["s"%char]) in H.
  change (PyStr.chars ".trk") with (PyStr.chars ".tr" ++ ["k"%char]) in H at 2.
  rewrite !app_assoc, !last_snoc in H. discriminate.
Qed.

(** A path that passes the guard of [save_trks] never has the single-batch
    extension. *)
Lemma guard_not_trk filename :
  PyStr.endswith (PyStr.lower filename) ".trks" = true →
  (PyStr.splitext filename).2 ≠ ".trk"%string.
Proof.
  unfold PyStr.endswith. intros [k Hk]%bool_decide_eq_true Hext.
  apply splitext_suffix in Hext as [pre Hpre]; [|done].
  rewrite chars_lower, Hpre, fmap_app in Hk.
  eapply trks_suffix_not_trk. symmetry. exact Hk.
Qed.

(** X13: the guard of [save_trks] is wider than the dispatch of
    [load_trks].  A path that ends in [.trks] in some other case, or whose
    last component is [.trks] alone, is accepted by [save_trks], which writes
    the archive; [load_trks] of that path then fails with
    [UnboundLocalError]. *)
Theorem save_then_load_unbound
    (filename : string) (lineages : list (list (Z * json)))
    (raw tracked : ndarray) (w : world) :
  PyStr.endswith (PyStr.lower filename) ".trks" = true →
  (PyStr.splitext filename).2 ≠ ".trks"%string →
  (run (save_trks filename lineages raw tracked) w).1 = Ok tt ∧
  (run (load_trks filename) (run (save_trks filename lineages raw tracked) w).2).1
  = Raise UnboundLocalError.
Proof.
  intros Hguard Hext. rewrite save_trks_run by done. split; [done|].
  cbn [snd]. eapply load_trks_run_unbound; cbn [fs];
    [apply lookup_insert_eq|done|done|done|by apply guard_not_trk].
Qed.

Lemma save_then_load_unbound_witness :
  (run (save_trks "B.Trks" scenario_b_lineages scenario_b_tracked scenario_b_tracked)
       empty_world).1 = Ok tt ∧
  (run (load_trks "B.Trks")
       (run (save_trks "B.Trks" scenario_b_lineages scenario_b_tracked scenario_b_tracked)
            empty_world).2).1
  = Raise UnboundLocalError.
Proof.
  apply save_then_load_unbound; [reflexivity|discriminate].
Defined.

(** X14: an archive without one of the two tensors cannot be loaded.  When
    the member [raw.npy] is absent, or it is there and [tracked.npy] is
    absent, [load_trks] raises [KeyError], whatever the extension. *)
Theorem load_trks_missing_tensor
    (filename : string) (members : gmap string blob) (raw : ndarray) (w : world) :
  fs w !! filename = Some (FTar members) →
  members !! "raw.npy" = None ∨
  (members !! "raw.npy" = Some (BNpy raw) ∧ members !! "tracked.npy" = None) →
  (run (load_trks filename) w).1 = Raise KeyError.
Proof.
  intros Hf [Hraw|[Hraw Htracked]]; unfold load_trks; io_step; rewrite Hf, Hraw.
  - done.
  - io_step. cbn [np_load]. rewrite Htracked. done.
Qed.

Lemma load_trks_missing_tensor_witness :
  (run (load_trks "t.trks")
       (World (<["t.trks" := FTar (<["raw.npy" := BNpy scenario_a]> ∅)]> ∅) [])).1
  = Raise KeyError.
Proof.
  apply (load_trks_missing_tensor "t.trks" (<["raw.npy" := BNpy scenario_a]> ∅) scenario_a).
  - reflexivity.
  - right. split; reflexivity.
Defined.

(** X15: each form has its own lineage member.  With both tensors present,
    [load_trks] raises [KeyError] after reading them when the extension is
    [.trks] and [lineages.json] is absent, and when the extension is [.trk]
    and [lineage.json] is absent: an archive written by [save_trks] cannot be
    read under a [.trk] name. *)
Theorem load_trks_missing_lineage
    (filename member : string) (members : gmap string blob) (raw tracked : ndarray)
    (w : world) :
  fs w !! filename = Some (FTar members) →
  members !! "raw.npy" = Some (BNpy raw) →
  members !! "tracked.npy" = Some (BNpy tracked) →
  ((PyStr.splitext filename).2 = ".trks"%string ∧ member = "lineages.json"%string) ∨
  ((PyStr.splitext filename).2 = ".trk"%string ∧ member = "lineage.json"%string) →
  members !! member = None →
  run (load_trks filename) w =
  (Raise KeyError,
   World (fs w)
         (trace w ++ [EvOpen filename false;
                      EvExtract filename "raw.npy";
                      EvExtract filename "tracked.npy";
                      EvExtract filename member])).
Proof.
  intros Hf Hraw Htracked [[Hext ->]|[Hext ->]] Hlin; unfold load_trks;
    io_step; rewrite Hf, Hraw; io_step; cbn [np_load]; rewrite Htracked;
    io_step; cbn [np_load]; rewrite Hext; cbn [String.eqb Ascii.eqb Bool.eqb];
    io_step; rewrite Hlin; io_step; rewrite <-!app_assoc; done.
Qed.

Lemma load_trks_missing_lineage_witness :
  run (load_trks "b.trk") renamed_world =
  (Raise KeyError,
   World (fs renamed_world)
         (trace renamed_world ++
          [EvOpen "b.trk" false;
           EvExtract "b.trk" "raw.npy";
           EvExtract "b.trk" "tracked.npy";
           EvExtract "b.trk" "lineage.json"])).
Proof.
  apply (load_trks_missing_lineage "b.trk" "lineage.json"
           (saved_archive scenario_b_lineages scenario_b_tracked scenario_b_tracked)
           scenario_b_tracked scenario_b_tracked renamed_world).
  - reflexivity.
  - reflexivity.
  - reflexivity.
  - right. split; reflexivity.
  - reflexivity.
Defined.

Lemma letter_uint_of_char (c : ascii) (d : option Decimal.uint) :
  is_letter c = true → uint_of_char c d = None.
Proof.
  destruct d as [d|]; [|done].
  destruct c as [[] [] [] [] [] [] [] []]; try discriminate; done.
Qed.

Lemma letter_not_minus (c : ascii) : is_letter c = true → Ascii.eqb c "-" = false.
Proof. destruct c as [[] [] [] [] [] [] [] []]; try discriminate; done. Qed.

Lemma uint_of_char_none (c : ascii) : uint_of_char c None = None.
Proof. done. Qed.

Lemma letter_uint_of_string (s : string) :
  has_letter s → NilEmpty.uint_of_string s = None.
Proof.
  unfold has_letter. induction s as [|c s IH]; [by intros ?%Exists_nil|].
  change (PyStr.chars (String c s)) with (c :: PyStr.chars s).
  cbn [NilEmpty.uint_of_string]. intros [Hc|Hs]%Exists_cons.
  - by apply letter_uint_of_char.
  - rewrite (IH Hs). apply uint_of_char_none.
Qed.

(** [int] reads no text with a letter in it. *)
Lemma int_of_str_letter (s : string) : has_letter s → PyStr.int_of_str s = None.
Proof.
  intros Hs. unfold PyStr.int_of_str, NilZero.int_of_string.
  destruct s as [|c s]; [done|].
  destruct (Ascii.eqb c "-") eqn:Hc.
  - unfold has_letter in Hs. change (PyStr.chars (String c s)) with (c :: PyStr.chars s) in Hs.
    apply Exists_cons in Hs as [Hl|Hs]; [by rewrite (letter_not_minus c Hl) in Hc|].
    unfold NilZero.uint_of_string. rewrite (letter_uint_of_string s Hs). by destruct s.
  - unfold NilZero.uint_of_string. by rewrite (letter_uint_of_string _ Hs).
Qed.

Lemma int_keys_bad_key (m : list (string * json)) (acc : list (Z * json)) :
  Exists (fun kv => has_letter kv.1) m →
  for_each m
    (fun kv d =>
       match PyStr.int_of_str kv.1 with
       | Some k => Ok (dict_set k kv.2 d)
       | None => Raise ValueError
       end) acc = Raise ValueError.
Proof.
  intros Hex. revert acc.
  induction m as [|[s v] m IH]; intros acc; [by apply Exists_nil in Hex|].
  cbn [for_each fst snd]. destruct (PyStr.int_of_str s) as [k|] eqn:Hs; [|done].
  cbn [rbind]. apply IH. apply Exists_cons in Hex as [Hbad|?]; [|done].
  cbn in Hbad. apply int_of_str_letter in Hbad. congruence.
Qed.

(** X16: keys are narrowed with [int].  When a Lineage Graph of
    [lineages.json] has a key with a letter in it, and the graphs before it
    are objects with integer literals as keys, [load_trks] raises
    [ValueError] after reading the three members. *)
Theorem load_trks_bad_key
    (filename : string) (members : gmap string blob) (raw tracked : ndarray)
    (before : list (list (Z * json))) (m : list (string * json)) (after : list json)
    (w : world) :
  fs w !! filename = Some (FTar members) →
  members !! "raw.npy" = Some (BNpy raw) →
  members !! "tracked.npy" = Some (BNpy tracked) →
  (PyStr.splitext filename).2 = ".trks"%string →
  members !! "lineages.json" =
    Some (BJson (JArr (((fun g : list (Z * json) =>
                           JObj (prod_map PyStr.str_of_int id <$> g)) <$> before)
                       ++ JObj m :: after))) →
  Forall wf_dict before →
  Exists (fun kv => has_letter kv.1) m →
  (run (load_trks filename) w).1 = Raise ValueError.
Proof.
  intros Hf Hraw Htracked Hext Hlin Hwf Hbad. unfold load_trks.
  io_step. rewrite Hf, Hraw. io_step. cbn [np_load]. rewrite Htracked.
  io_step. cbn [np_load]. rewrite Hext. cbn [String.eqb Ascii.eqb Bool.eqb].
  io_step. rewrite Hlin. io_step. cbn [json_loads int_keys_all].
  assert (mapM int_keys
            (((fun g : list (Z * json) => JObj (prod_map PyStr.str_of_int id <$> g)) <$> before)
             ++ JObj m :: after) = Raise ValueError) as ->; [|done].
  clear Hlin. induction Hwf as [|g before Hg _ IH].
  - cbn [fmap list_fmap app].
    change (mapM int_keys (?x :: ?k))
      with (rbind (int_keys x) (fun y => rbind (mapM int_keys k) (fun r => Ok (y :: r)))).
    unfold int_keys at 1. by rewrite (int_keys_bad_key m [] Hbad).
  - rewrite fmap_cons. cbn [app].
    change (mapM int_keys (?x :: ?k))
      with (rbind (int_keys x) (fun y => rbind (mapM int_keys k) (fun r => Ok (y :: r)))).
    rewrite int_keys_widened by done. cbn [rbind]. by rewrite IH.
Qed.

Lemma load_trks_bad_key_witness :
  (run (load_trks "k.trks")
       (World (<["k.trks" :=
                   FTar (<["lineages.json" := BJson (JArr [JObj [("cell"%string, JNull)]])]>
                           (<["raw.npy" := BNpy scenario_a]>
                              (<["tracked.npy" := BNpy scenario_a]> ∅)))]> ∅) [])).1
  = Raise ValueError.
Proof.
  apply (load_trks_bad_key "k.trks"
           (<["lineages.json" := BJson (JArr [JObj [("cell"%string, JNull)]])]>
              (<["raw.npy" := BNpy scenario_a]>
                 (<["tracked.npy" := BNpy scenario_a]> ∅)))
           scenario_a scenario_a [] [("cell"%string, JNull)] []).
  - reflexivity.
  - reflexivity.
  - reflexivity.
  - reflexivity.
  - reflexivity.
  - constructor.
  - apply Exists_cons_hd. apply Exists_cons_hd. reflexivity.
Defined.

(* ===================================================================== *)
(** * Further properties of the statistics *)
(* ===================================================================== *)

Lemma daughters_of_object_cases (g acc : list (Z * json)) :
  Forall (fun kv => ∃ m, kv.2 = JObj m) g →
  (∃ d, for_each g (fun kv d => v ← getitem kv.2 "daughters"; Ok (dict_set kv.1 v d)) acc = Ok d)
  ∨ for_each g (fun kv d => v ← getitem kv.2 "daughters"; Ok (dict_set kv.1 v d)) acc
    = Raise KeyError.
Proof.
  intros Hobj. revert acc. induction Hobj as [|[k fields] g [m Hm] _ IH]; intros acc.
  - left. by eexists.
  - cbn [for_each fst snd]. cbn [snd] in Hm. subst fields. unfold getitem at 1 3.
    destruct (dict_get "daughters" m) as [v|]; [|by right]. cbn. apply IH.
Qed.

Lemma daughters_of_missing (g acc : list (Z * json)) :
  Forall (fun kv => ∃ m, kv.2 = JObj m) g →
  Exists (fun kv => Report.daughters kv.2 = None) g →
  for_each g (fun kv d => v ← getitem kv.2 "daughters"; Ok (dict_set kv.1 v d)) acc
  = Raise KeyError.
Proof.
  intros Hobj Hex. revert acc. induction Hobj as [|[k fields] g [m Hm] Hobj IH]; intros acc.
  - by apply Exists_nil in Hex.
  - cbn [for_each fst snd]. cbn [snd] in Hm. subst fields. unfold getitem at 1.
    destruct (dict_get "daughters" m) as [v|] eqn:Hd; [|done]. cbn.
    apply IH. apply Exists_cons in Hex as [Hbad|?]; [|done].
    cbn in Hbad. congruence.
Qed.

Lemma mapM_daughters_missing (l : list (list (Z * json))) :
  Forall (Forall (fun kv => ∃ m, kv.2 = JObj m)) l →
  Exists (Exists (fun kv => Report.daughters kv.2 = None)) l →
  mapM daughters_of l = Raise KeyError.
Proof.
  intros Hobj Hex. induction Hobj as [|g l Hg _ IH]; [by apply Exists_nil in Hex|].
  change (mapM daughters_of (g :: l))
    with (rbind (daughters_of g) (fun d => rbind (mapM daughters_of l) (fun r => Ok (d :: r)))).
  apply Exists_cons in Hex as [Hbad|Hlater].
  - unfold daughters_of at 1. by rewrite daughters_of_missing.
  - unfold daughters_of at 1.
    destruct (daughters_of_object_cases g [] Hg) as [[d ->]| ->]; [|done].
    cbn [rbind]. by rewrite IH.
Qed.

(** X17: every Lineage Record must have a [daughters] field.  When the
    archive loads, its records are objects and one of them has no
    [daughters] field, [trks_stats] raises [KeyError] right after loading:
    nothing is printed. *)
Theorem trks_stats_missing_daughters
    (filename : string) (w w' : world) (t : trks) :
  PyStr.lower (PyStr.splitext filename).2 = ".trks"%string ∨
  PyStr.lower (PyStr.splitext filename).2 = ".trk"%string →
  run (load_trks filename) w = (Ok t, w') →
  Forall (Forall (fun kv => ∃ m, kv.2 = JObj m)) (lineages t) →
  Exists (Exists (fun kv => Report.daughters kv.2 = None)) (lineages t) →
  run (trks_stats filename) w = (Raise KeyError, w').
Proof.
  intros Hext Hload Hobj Hex. unfold trks_stats.
  assert (String.eqb (PyStr.lower (PyStr.splitext filename).2) ".trks"
          || String.eqb (PyStr.lower (PyStr.splitext filename).2) ".trk" = true) as ->.
  { destruct Hext as [-> | ->]; reflexivity. }
  cbn [negb]. rewrite run_bind, Hload.
  rewrite run_bind. cbn [lift run]. by rewrite mapM_daughters_missing.
Qed.

Lemma trks_stats_missing_daughters_witness :
  run (trks_stats "n.trks") no_daughters_world =
  (Raise KeyError, (run (load_trks "n.trks") no_daughters_world).2).
Proof.
  apply (trks_stats_missing_daughters "n.trks" no_daughters_world _
           (Trks no_daughters_lineages scenario_b_tracked scenario_b_tracked)).
  - left. reflexivity.
  - vm_compute. reflexivity.
  - repeat constructor. eexists. reflexivity.
  - apply Exists_cons_hd, Exists_cons_hd. reflexivity.
Defined.

(** X18: an average over nothing is not a number.  When the archive loads
    and is well formed as for the report, but the average track length is
    not a number (there is no Lineage Graph, or one of them is empty),
    [trks_stats] prints the shape, the counts and the density and then raises
    [ValueError] at the conversion of the average to an integer. *)
Theorem trks_stats_no_track_length
    (filename : string) (w w' : world) (t : trks) (B : nat) :
  PyStr.lower (PyStr.splitext filename).2 = ".trks"%string ∨
  PyStr.lower (PyStr.splitext filename).2 = ".trk"%string →
  run (load_trks filename) w = (Ok t, w') →
  Forall (Forall (fun kv => is_Some (Report.daughters kv.2))) (lineages t) →
  is_Some (shape (X t) !! 3%nat) →
  shape (y t) !! 0%nat = Some B →
  is_Some (shape (y t) !! 1%nat) →
  (length (lineages t) ≤ B)%nat →
  Report.avg_track_length t = None →
  run (trks_stats filename) w =
  (Raise ValueError, World (fs w') (trace w' ++ report_lines_before_length t)).
Proof.
  intros Hext Hload Hd [d3 H3] HB [T HT] Hlen Hq.
  pose proof (load_trks_wf _ _ _ _ Hload) as Hwf.
  assert (∃ d2, shape (X t) !! 2%nat = Some d2) as [d2 H2].
  { apply lookup_lt_is_Some. apply lookup_lt_Some in H3. lia. }
  unfold trks_stats.
  assert (String.eqb (PyStr.lower (PyStr.splitext filename).2) ".trks"
          || String.eqb (PyStr.lower (PyStr.splitext filename).2) ".trk" = true) as ->.
  { destruct Hext as [-> | ->]; reflexivity. }
  cbn [negb]. rewrite run_bind, Hload.
  rewrite (mapM_result_Ok daughters_of
             (fun g : list (Z * json) =>
                (fun kv => (kv.1, default JNull (Report.daughters kv.2))) <$> g)).
  2:{ intros g Hg. apply daughters_of_run.
      - by eapply Forall_forall in Hwf.
      - by eapply Forall_forall in Hd. }
  io_step. unfold tuple_get. rewrite H2, H3, HB. io_step.
  rewrite (mapM_result_Ok (avg_cells (y t))
             (fun b => Report.mean ((fun frame => inject_Z (Report.cells_in_frame frame))
                                      <$> Report.frames_of (y t) b))).
  2:{ intros b Hb%elem_of_seq. eapply avg_cells_run; eauto with lia. }
  io_step. rewrite length_fmap.
  rewrite (division_loop_run (y t) B T) by (done || lia).
  io_step. cbn [fst snd app].
  rewrite np_average_mean_opt.
  change (Report.mean_opt _) with (Report.avg_track_length t) at 1.
  rewrite Hq. cbn [int_of_float]. io_step.
  rewrite <-!app_assoc. cbn [app]. unfold report_lines_before_length.
  match goal with
  | |- context [PFloat ?f] => assert (f = Report.avg_cell_density t) as ->
  end.
  { unfold Report.avg_cell_density. rewrite HB, H2, H3. cbn [default].
    rewrite np_average_mean_opt. unfold float_div_int.
    destruct (Report.mean_opt _) as [m|]; cbn;
      destruct (Z.of_nat (d2 * d3) =? 0); done. }
  reflexivity.
Qed.

Lemma trks_stats_no_track_length_witness :
  run (trks_stats "e.trks") empty_graph_world =
  (Raise ValueError,
   World (fs (run (load_trks "e.trks") empty_graph_world).2)
         (trace (run (load_trks "e.trks") empty_graph_world).2
          ++ report_lines_before_length
               (Trks empty_graph_lineages scenario_b_tracked scenario_b_tracked))).
Proof.
  apply (trks_stats_no_track_length "e.trks" empty_graph_world
           (run (load_trks "e.trks") empty_graph_world).2
           (Trks empty_graph_lineages scenario_b_tracked scenario_b_tracked) 2).
  - left. reflexivity.
  - vm_compute. reflexivity.
  - repeat constructor; eexists; reflexivity.
  - eexists. reflexivity.
  - reflexivity.
  - eexists. reflexivity.
  - simpl. lia.
  - vm_compute. reflexivity.
Defined.

(** X19: a division is a track.  Over any run of the loop on the batch
    items, the count of divisions grows by no more than the count of tracks,
    and neither shrinks: the number of divisions printed never exceeds the
    number of tracks printed. *)
Theorem divisions_at_most_tracks
    (tracked : ndarray) (batches : list (nat * list (Z * json)))
    (st st' : Z * Z * list (option Q)) :
  for_each batches (division_step tracked) st = Ok st' →
  0 ≤ st'.1.2 - st.1.2 ∧ st'.1.2 - st.1.2 ≤ st'.1.1 - st.1.1.
Proof.
  revert st. induction batches as [|bd batches IH]; intros st.
  - intros [= <-]. lia.
  - cbn [for_each]. unfold division_step at 1.
    destruct (mapM (frame_count tracked bd.1) bd.2.*1) as [counts|]; [|done].
    cbn [mbind result_bind rbind]. intros Hrest. apply IH in Hrest. cbn [fst snd] in Hrest.
    pose proof (length_filter (fun c : Z * json => truthy c.2 = true) bd.2). lia.
Qed.

Lemma divisions_at_most_tracks_witness :
  0 ≤ 2 - 0 ∧ 2 - 0 ≤ 2 - 0.
Proof.
  apply (divisions_at_most_tracks scenario_b_tracked
           [ (0%nat, [(1, JArr [JNum 2])]); (1%nat, [(7, JArr [JNum 8])]) ]
           (0, 0, []) (2, 2, [Some (2 # 1); Some (1 # 1)])).
  vm_compute. reflexivity.
Defined.

(* ===================================================================== *)
(** * Properties of the folder compiler and of its sort key *)
(* ===================================================================== *)

Example re_split_examples :
  Natural.re_split "12ab" = [""; "12"; "ab"]%string ∧
  Natural.re_split "a1b2" = ["a"; "1"; "b"; "2"; ""]%string ∧
  Natural.re_split "" = [""]%string ∧
  Natural.re_split "cell_007.trk" = ["cell_"; "007"; ".trk"]%string.
Proof. split_and!; reflexivity. Qed.

Example sorted_example :
  Natural.sorted ["cell10.trk"; "cell2.trk"; "cell1.trk"]%string
  = Ok ["cell1.trk"; "cell2.trk"; "cell10.trk"]%string.
Proof. vm_compute. reflexivity. Qed.

Example path_examples :
  PosixPath.join "data/set" "cell1.trk" = "data/set/cell1.trk"%string ∧
  PosixPath.join "data/set/" "cell1.trk" = "data/set/cell1.trk"%string ∧
  PosixPath.join "data" "/abs.trk" = "/abs.trk"%string ∧
  PosixPath.dirname "data/set" = "data"%string ∧
  PosixPath.dirname "data/set/" = "data/set"%string ∧
  PosixPath.dirname "set" = ""%string ∧
  PosixPath.dirname "/set" = "/"%string.
Proof. split_and!; reflexivity. Qed.

(** ** The sort key *)

Lemma split_step_ok c st :
  forallb (fun c => negb (Natural.is_digit c)) st.1 = true →
  pieces_ok true st.2 →
  forallb (fun c => negb (Natural.is_digit c)) (Natural.split_step c st).1 = true ∧
  pieces_ok true (Natural.split_step c st).2.
Proof.
  destruct st as [nd0 rest]. cbn [fst snd]. intros Hnd Hrest.
  unfold Natural.split_step. cbn [fst snd].
  destruct (Natural.is_digit c) eqn:Hc.
  - destruct nd0 as [|a nd0].
    + destruct rest as [|d1 rest]; cbn [fst snd pieces_ok negb forallb].
      * rewrite Hc. done.
      * cbn [pieces_ok] in Hrest. destruct Hrest as [[_ Hd1] Hrest].
        rewrite Hc, Hd1. done.
    + cbn [fst snd pieces_ok negb forallb]. rewrite Hc. done.
  - cbn [fst snd forallb]. rewrite Hc, Hnd. done.
Qed.

Lemma re_split_state_ok (l : list ascii) :
  forallb (fun c => negb (Natural.is_digit c)) (foldr Natural.split_step ([], []) l).1 = true ∧
  pieces_ok true (foldr Natural.split_step ([], []) l).2.
Proof.
  induction l as [|c l [IH1 IH2]]; [done|]. cbn [foldr]. by apply split_step_ok.
Qed.

Lemma chars_of_list l : PyStr.chars (string_of_list_ascii l) = l.
Proof. apply list_ascii_of_string_of_list_ascii. Qed.

Lemma split_step_plain c st :
  plain_char c = true →
  Forall (fun p => forallb plain_char p = true) (st.1 :: st.2) →
  Forall (fun p => forallb plain_char p = true)
         ((Natural.split_step c st).1 :: (Natural.split_step c st).2).
Proof.
  destruct st as [nd0 rest]. cbn [fst snd]. intros Hc [Hnd Hrest]%Forall_cons.
  unfold Natural.split_step. cbn [fst snd].
  destruct (Natural.is_digit c) eqn:Hd.
  - destruct nd0 as [|a nd0].
    + destruct rest as [|d1 rest].
      * constructor; [done|]. constructor; [|by constructor].
        cbn [forallb]. by rewrite Hc.
      * apply Forall_cons in Hrest as [Hd1 Hrest]. constructor; [done|].
        constructor; [|done]. cbn [forallb]. by rewrite Hc, Hd1.
    + constructor; [done|]. constructor; [|by constructor].
      cbn [forallb]. by rewrite Hc.
  - cbn [fst snd]. constructor; [|done]. cbn [forallb]. by rewrite Hc, Hnd.
Qed.

Lemma re_split_state_plain (l : list ascii) :
  forallb plain_char l = true →
  Forall (fun p => forallb plain_char p = true)
         ((foldr Natural.split_step ([], []) l).1 :: (foldr Natural.split_step ([], []) l).2).
Proof.
  induction l as [|c l IH]; [by repeat constructor|].
  cbn [forallb foldr]. intros [Hc Hl]%andb_true_iff. by apply split_step_plain; [|apply IH].
Qed.

Lemma isdigit_digit_free l :
  forallb (fun c => negb (Natural.is_digit c)) l = true →
  forallb plain_char l = true →
  Natural.isdigit (string_of_list_ascii l) = false.
Proof.
  unfold Natural.isdigit. rewrite chars_of_list.
  destruct l as [|c l]; [done|]. cbn [forallb].
  intros [Hc _]%andb_true_iff [Hp _]%andb_true_iff.
  apply negb_true_iff in Hc. unfold plain_char in Hp. rewrite Hc in Hp. cbn in Hp.
  apply negb_true_iff in Hp. rewrite Hp. by rewrite andb_false_r.
Qed.

Lemma isdigit_digits l :
  l ≠ [] → forallb Natural.is_digit l = true →
  Natural.isdigit (string_of_list_ascii l) = true.
Proof.
  unfold Natural.isdigit. rewrite chars_of_list. intros Hne Hl.
  assert (forallb Natural.isdigit_char l = true) as ->.
  { clear Hne. induction l as [|c l IH]; [done|]. cbn [forallb] in *.
    apply andb_true_iff in Hl as [Hc Hl]. rewrite (IH Hl).
    unfold Natural.isdigit_char. by rewrite Hc. }
  destruct l; done.
Qed.

Lemma is_digit_uint_of_char c d :
  Natural.is_digit c = true → ∃ d', uint_of_char c (Some d) = Some d'.
Proof.
  destruct c as [[] [] [] [] [] [] [] []]; try discriminate; intros _; by eexists.
Qed.

Lemma is_digit_not_minus c : Natural.is_digit c = true → Ascii.eqb c "-" = false.
Proof. destruct c as [[] [] [] [] [] [] [] []]; try discriminate; done. Qed.

Lemma digits_uint_of_string l :
  forallb Natural.is_digit l = true →
  ∃ d, NilEmpty.uint_of_string (string_of_list_ascii l) = Some d.
Proof.
  induction l as [|c l IH]; [by eexists|].
  cbn. intros [Hc Hl]%andb_true_iff. destruct (IH Hl) as [d ->].
  by apply is_digit_uint_of_char.
Qed.

Lemma int_of_str_digits l :
  l ≠ [] → forallb Natural.is_digit l = true →
  ∃ n, PyStr.int_of_str (string_of_list_ascii l) = Some n.
Proof.
  intros Hne Hl. destruct (digits_uint_of_string l Hl) as [d Hd].
  destruct l as [|c l]; [done|].
  unfold PyStr.int_of_str, NilZero.int_of_string. cbn [string_of_list_ascii].
  cbn in Hl. apply andb_true_iff in Hl as [Hc _].
  rewrite (is_digit_not_minus c Hc).
  unfold NilZero.uint_of_string. cbn [string_of_list_ascii] in Hd. rewrite Hd.
  by eexists.
Qed.

(** [int] does not read a text that begins with a superscript digit. *)
Lemma int_of_str_superscript c s :
  Natural.is_digit c = false → Natural.isdigit_char c = true →
  PyStr.int_of_str (String c s) = None.
Proof.
  unfold PyStr.int_of_str, NilZero.int_of_string, NilZero.uint_of_string.
  destruct c as [[] [] [] [] [] [] [] []]; try discriminate; intros _ _;
    cbn; by destruct (NilEmpty.uint_of_string s).
Qed.

Lemma convert_digit_free p x :
  forallb (fun c => negb (Natural.is_digit c)) p = true →
  Natural.convert (string_of_list_ascii p) = Ok x → ∃ s, x = KStr s.
Proof.
  unfold Natural.convert, Natural.isdigit. rewrite chars_of_list.
  destruct p as [|c p]; [intros _ [= <-]; by eexists|].
  cbn [forallb string_of_list_ascii]. intros [Hc _]%andb_true_iff.
  apply negb_true_iff in Hc.
  destruct (Natural.isdigit_char c) eqn:Hs.
  - rewrite (int_of_str_superscript c _ Hc Hs).
    destruct (_ && _); [done|]. intros [= <-]. by eexists.
  - cbn. intros [= <-]. by eexists.
Qed.

(** A key that is computed has a [str] and an [int] in turn. *)
Lemma convert_pieces_alternates (b : bool) (l : list (list ascii)) k :
  pieces_ok b l →
  mapM Natural.convert (string_of_list_ascii <$> l) = Ok k → alternates (negb b) k.
Proof.
  revert b k. induction l as [|p l IH]; intros b k.
  - intros _ [= <-]. done.
  - cbn [pieces_ok]. intros [Hp Hl]. rewrite fmap_cons.
    change (mapM Natural.convert (?x :: ?t))
      with (rbind (Natural.convert x) (fun y => rbind (mapM Natural.convert t) (fun r => Ok (y :: r)))).
    destruct (Natural.convert (string_of_list_ascii p)) as [x|] eqn:Hx; [|done]. cbn [rbind].
    destruct (mapM Natural.convert (string_of_list_ascii <$> l)) as [k'|] eqn:Hk; [|done].
    cbn [rbind]. intros [= <-]. specialize (IH _ _ Hl eq_refl).
    destruct b.
    + destruct Hp as [Hne Hd]. unfold Natural.convert in Hx.
      rewrite (isdigit_digits p Hne Hd) in Hx.
      destruct (PyStr.int_of_str _); [|done]. injection Hx as <-. done.
    + destruct (convert_digit_free p x Hp Hx) as [s ->]. done.
Qed.

(** The key of a name without superscript digits is computed. *)
Lemma convert_pieces_total (b : bool) (l : list (list ascii)) :
  pieces_ok b l → Forall (fun p => forallb plain_char p = true) l →
  ∃ k, mapM Natural.convert (string_of_list_ascii <$> l) = Ok k.
Proof.
  revert b. induction l as [|p l IH]; intros b; [by eexists|].
  cbn [pieces_ok]. intros [Hp Hl] [Hpl Hplain]%Forall_cons.
  destruct (IH _ Hl Hplain) as (k & Hk).
  rewrite fmap_cons.
  change (mapM Natural.convert (?x :: ?t))
    with (rbind (Natural.convert x) (fun y => rbind (mapM Natural.convert t) (fun r => Ok (y :: r)))).
  rewrite Hk. unfold Natural.convert. destruct b.
  - destruct Hp as [Hne Hd]. rewrite (isdigit_digits p Hne Hd).
    destruct (int_of_str_digits p Hne Hd) as [n ->]. by eexists.
  - rewrite (isdigit_digit_free p Hp Hpl). by eexists.
Qed.

Lemma alphanum_key_alternates name k :
  Natural.alphanum_key name = Ok k → alternates true k.
Proof.
  unfold Natural.alphanum_key, Natural.re_split.
  destruct (re_split_state_ok (PyStr.chars name)) as [H1 H2].
  apply (convert_pieces_alternates false (_ :: _)). cbn [pieces_ok negb]. done.
Qed.

Lemma alphanum_key_total name :
  plain_name name → ∃ k, Natural.alphanum_key name = Ok k.
Proof.
  unfold Natural.alphanum_key, Natural.re_split, plain_name. intros Hplain.
  destruct (re_split_state_ok (PyStr.chars name)) as [H1 H2].
  apply (convert_pieces_total false (_ :: _)).
  - cbn [pieces_ok negb]. done.
  - by apply re_split_state_plain.
Qed.

Lemma key_lt_alternates b k1 k2 :
  alternates b k1 → alternates b k2 → ∃ c, Natural.key_lt k1 k2 = Ok c.
Proof.
  revert b k2. induction k1 as [|x k1 IH]; intros b k2 H1 H2.
  - destruct k2; by eexists.
  - destruct k2 as [|y k2]; [by eexists|]. cbn [Natural.key_lt].
    destruct x as [n|s], y as [m|t]; cbn [alternates] in H1, H2;
      destruct H1 as [-> H1], H2 as [Hb H2]; try discriminate;
      cbn [Natural.part_eqb]; case_match; eauto.
Qed.

Lemma insert_by_key_ok {A} (x : list key_part * A) (l : list (list key_part * A)) :
  alternates true x.1 → Forall (fun y => alternates true y.1) l →
  ∃ r, Natural.insert_by_key x l = Ok r ∧ r ≡ₚ x :: l.
Proof.
  intros Hx. induction l as [|y l IH]; intros Hl.
  - by eexists.
  - apply Forall_cons in Hl as [Hy Hl]. cbn [Natural.insert_by_key].
    destruct (key_lt_alternates true y.1 x.1 Hy Hx) as [c ->].
    cbn [mbind result_bind rbind]. destruct c.
    + destruct (IH Hl) as (r & -> & Hr). cbn [rbind]. eexists. split; [done|].
      rewrite Hr. apply Permutation_swap.
    + by eexists.
Qed.

Lemma keyed_ok (l : list string) keyed :
  mapM (fun name => k ← Natural.alphanum_key name; Ok (k, name)) l = Ok keyed →
  keyed.*2 = l
  ∧ Forall2 (fun name p => Natural.alphanum_key name = Ok p.1) l keyed
  ∧ Forall (fun p => alternates true p.1) keyed.
Proof.
  revert keyed. induction l as [|name l IH]; intros keyed.
  - intros [= <-]. done.
  - change (mapM ?f (?x :: ?t)) with (rbind (f x) (fun y => rbind (mapM f t) (fun r => Ok (y :: r)))).
    cbn beta.
    destruct (Natural.alphanum_key name) as [k|] eqn:Hkey;
      cbn [mbind result_bind rbind]; [|done].
    destruct (mapM _ l) as [keyed'|] eqn:Hk; cbn [rbind]; [|done].
    intros [= <-]. destruct (IH _ eq_refl) as (H2 & HF & Halt). split_and!.
    + cbn. by rewrite H2.
    + by constructor.
    + constructor; [|done]. by eapply alphanum_key_alternates.
Qed.

Lemma keyed_total (l : list string) :
  Forall plain_name l →
  ∃ keyed, mapM (fun name => k ← Natural.alphanum_key name; Ok (k, name)) l = Ok keyed.
Proof.
  induction l as [|name l IH]; [by eexists|]. intros [Hn Hl]%Forall_cons.
  destruct (IH Hl) as [keyed Hk].
  change (mapM ?f (?x :: ?t)) with (rbind (f x) (fun y => rbind (mapM f t) (fun r => Ok (y :: r)))).
  rewrite Hk. destruct (alphanum_key_total name Hn) as [k ->].
  cbn [mbind result_bind rbind]. by eexists.
Qed.

Lemma insertion_sort_ok {A} (keyed : list (list key_part * A)) :
  Forall (fun p => alternates true p.1) keyed →
  ∃ r, foldr (fun x acc => s ← acc; Natural.insert_by_key x s) (Ok []) keyed = Ok r
       ∧ r ≡ₚ keyed.
Proof.
  induction keyed as [|x l IH]; intros Hl; [by eexists|].
  apply Forall_cons in Hl as [Hx Hl]. destruct (IH Hl) as (s & Hs & Hperm).
  cbn [foldr]. rewrite Hs. cbn [mbind result_bind rbind].
  destruct (insert_by_key_ok x s Hx) as (r & Hr & Hperm').
  { by rewrite Hperm. }
  exists r. split; [done|]. by rewrite Hperm', Hperm.
Qed.

(** X20: of names without superscript digits (which [isdigit] takes for
    digits and [int] does not read; names are sequences of code points
    below 256) the sort never raises: a digit run of a key meets a digit
    run and a text piece a text piece, and the result is the listing in
    another order. *)
Theorem natural_sorted_permutation (file_list : list string) :
  Forall plain_name file_list →
  ∃ l, Natural.sorted file_list = Ok l ∧ l ≡ₚ file_list.
Proof.
  intros Hplain. unfold Natural.sorted.
  destruct (keyed_total file_list Hplain) as (keyed & Hk). rewrite Hk.
  destruct (keyed_ok file_list keyed Hk) as (H2 & _ & Halt).
  cbn [mbind result_bind rbind].
  destruct (insertion_sort_ok keyed Halt) as (r & -> & Hperm).
  cbn [rbind]. eexists. split; [done|]. by rewrite Hperm, H2.
Qed.

Lemma natural_sorted_permutation_witness :
  ∃ l, Natural.sorted ["cell10.trk"; "cell2.trk"; "cell1.trk"] = Ok l
       ∧ l ≡ₚ ["cell10.trk"; "cell2.trk"; "cell1.trk"].
Proof.
  apply (natural_sorted_permutation ["cell10.trk"; "cell2.trk"; "cell1.trk"]).
  repeat constructor.
Defined.

Lemma ascii_compare_lt_trans (a b c : ascii) :
  Ascii.compare a b = Lt → Ascii.compare b c = Lt → Ascii.compare a c = Lt.
Proof. unfold Ascii.compare. rewrite !N.compare_lt_iff. lia. Qed.

Lemma string_compare_lt_trans (a b c : string) :
  String.compare a b = Lt → String.compare b c = Lt → String.compare a c = Lt.
Proof.
  revert b c. induction a as [|x a IH]; intros [|y b] [|z c]; cbn; try done.
  destruct (Ascii.compare x y) eqn:Hxy; try done;
    destruct (Ascii.compare y z) eqn:Hyz; try done; intros H1 H2.
  - apply Ascii.compare_eq_iff in Hxy as ->. rewrite Hyz. eauto.
  - apply Ascii.compare_eq_iff in Hxy as ->. by rewrite Hyz.
  - apply Ascii.compare_eq_iff in Hyz as ->. by rewrite Hxy.
  - by rewrite (ascii_compare_lt_trans x y z).
Qed.

Lemma string_compare_refl (a : string) : String.compare a a = Eq.
Proof.
  pose proof (String.compare_antisym a a) as H. destruct (String.compare a a); done.
Qed.

Lemma string_ltb_total (s t : string) :
  String.eqb s t = false → String.ltb s t = false → String.ltb t s = true.
Proof.
  unfold String.ltb. intros Hne%String.eqb_neq. rewrite (String.compare_antisym t s).
  destruct (String.compare s t) eqn:Hc; cbn; try done.
  apply String.compare_eq_iff in Hc. congruence.
Qed.

Lemma string_ltb_asym (s t : string) : String.ltb s t = true → String.ltb t s = false.
Proof.
  unfold String.ltb. rewrite (String.compare_antisym t s).
  destruct (String.compare s t); done.
Qed.

Lemma string_ltb_trans (s t u : string) :
  String.ltb s t = true → String.ltb t u = true → String.ltb s u = true.
Proof.
  unfold String.ltb. intros H1 H2.
  rewrite (string_compare_lt_trans s t u); [done| |].
  - by destruct (String.compare s t).
  - by destruct (String.compare t u).
Qed.

Lemma string_ltb_neq (s t : string) : String.ltb s t = true → String.eqb s t = false.
Proof.
  unfold String.ltb. intros H. apply String.eqb_neq. intros ->.
  by rewrite string_compare_refl in H.
Qed.

Lemma key_lt_irrefl k : Natural.key_lt k k = Ok false.
Proof.
  induction k as [|x k IH]; [done|]. cbn [Natural.key_lt].
  destruct x; cbn [Natural.part_eqb].
  - by rewrite Z.eqb_refl.
  - by rewrite String.eqb_refl.
Qed.

Lemma key_lt_asym b k1 k2 :
  alternates b k1 → alternates b k2 →
  Natural.key_lt k1 k2 = Ok true → Natural.key_lt k2 k1 = Ok false.
Proof.
  revert b k2. induction k1 as [|x k1 IH]; intros b [|y k2] H1 H2; try done.
  cbn [Natural.key_lt].
  destruct x as [n|s], y as [m|t]; cbn [alternates] in H1, H2;
    destruct H1 as [-> H1], H2 as [Hb H2]; try discriminate; cbn [Natural.part_eqb].
  - rewrite (Z.eqb_sym m n). destruct (n =? m) eqn:Hnm; [by eapply IH|].
    intros [= Hlt]. f_equal. lia.
  - rewrite (String.eqb_sym t s). destruct (String.eqb s t) eqn:Hst; [by eapply IH|].
    intros [= Hlt]. f_equal. by apply string_ltb_asym.
Qed.

(** [a <= b] on keys of one kind, as [not (b < a)], is transitive. *)
Lemma key_le_trans b k1 k2 k3 :
  alternates b k1 → alternates b k2 → alternates b k3 →
  Natural.key_lt k2 k1 = Ok false → Natural.key_lt k3 k2 = Ok false →
  Natural.key_lt k3 k1 = Ok false.
Proof.
  revert b k2 k3. induction k1 as [|x k1 IH]; intros b k2 k3 H1 H2 H3.
  - intros _ _. by destruct k3.
  - destruct k2 as [|y k2]; [done|]. destruct k3 as [|z k3]; [done|].
    cbn [Natural.key_lt].
    destruct x as [n|s], y as [m|t], z as [o|u]; cbn [alternates] in H1, H2, H3;
      destruct H1 as [-> H1], H2 as [Hb2 H2], H3 as [Hb3 H3]; try discriminate;
      cbn [Natural.part_eqb].
    + destruct (m =? n) eqn:Hmn, (o =? m) eqn:Hom, (o =? n) eqn:Hon;
        try (intros [= Ha] [= Hb]; f_equal; lia); try lia; try (by eapply IH).
      all: intros; try lia.
      all: try (intros [= Ha]; lia).
    + destruct (String.eqb t s) eqn:Hts, (String.eqb u t) eqn:Hut.
      * apply String.eqb_eq in Hts as ->. apply String.eqb_eq in Hut as ->.
        rewrite String.eqb_refl. by eapply IH.
      * apply String.eqb_eq in Hts as ->. rewrite Hut. done.
      * apply String.eqb_eq in Hut as ->. rewrite Hts. done.
      * intros [= Ha] [= Hb].
        pose proof (string_ltb_total _ _ Hts Ha) as Hst.
        pose proof (string_ltb_total _ _ Hut Hb) as Htu.
        pose proof (string_ltb_trans _ _ _ Hst Htu) as Hsu.
        rewrite (String.eqb_sym u s), (string_ltb_neq _ _ Hsu).
        by rewrite (string_ltb_asym _ _ Hsu).
Qed.

Lemma insert_by_key_split {A} (x : list key_part * A) l r :
  Natural.insert_by_key x l = Ok r →
  ∃ l1 l2, l = l1 ++ l2 ∧ r = l1 ++ x :: l2 ∧
           Forall (fun y => Natural.key_lt y.1 x.1 = Ok true) l1 ∧
           match l2 with
           | y :: _ => Natural.key_lt y.1 x.1 = Ok false
           | [] => True
           end.
Proof.
  revert r. induction l as [|y l IH]; intros r.
  - intros [= <-]. by exists [], [].
  - cbn [Natural.insert_by_key].
    destruct (Natural.key_lt y.1 x.1) as [[]|] eqn:Hc; cbn [mbind result_bind rbind]; [| |done].
    + destruct (Natural.insert_by_key x l) as [r'|] eqn:Hr; [|done]. cbn [rbind].
      intros [= <-]. destruct (IH r' eq_refl) as (l1 & l2 & -> & -> & Hl1 & Hl2).
      exists (y :: l1), l2. repeat split; [by constructor|done].
    + intros [= <-]. exists [], (y :: l). repeat split; [constructor|done].
Qed.

Lemma insert_by_key_sorted {A} (x : list key_part * A) l r :
  alternates true x.1 → Forall (fun y => alternates true y.1) l →
  StronglySorted (fun p q => Natural.key_lt q.1 p.1 = Ok false) l →
  Natural.insert_by_key x l = Ok r →
  StronglySorted (fun p q => Natural.key_lt q.1 p.1 = Ok false) r.
Proof.
  intros Hx. revert r. induction l as [|y l IH]; intros r Halt Hs.
  - intros [= <-]. repeat constructor.
  - apply Forall_cons in Halt as [Hy Halt].
    apply StronglySorted_inv in Hs as [Hs Hyl].
    cbn [Natural.insert_by_key].
    destruct (Natural.key_lt y.1 x.1) as [[]|] eqn:Hc; cbn [mbind result_bind rbind]; [| |done].
    + destruct (Natural.insert_by_key x l) as [r'|] eqn:Hr; [|done]. cbn [rbind].
      intros [= <-]. constructor; [by apply IH|].
      destruct (insert_by_key_ok x l Hx Halt) as (r'' & Hr'' & Hperm).
      rewrite Hr in Hr''. injection Hr'' as <-. rewrite Hperm.
      constructor; [|done]. by eapply key_lt_asym.
    + intros [= <-]. constructor; [by constructor|].
      constructor; [done|].
      rewrite Forall_forall in Hyl, Halt. apply Forall_forall. intros z Hz.
      eapply (key_le_trans true _ y.1); eauto.
Qed.

Lemma insertion_sort_sorted {A} (keyed r : list (list key_part * A)) :
  Forall (fun p => alternates true p.1) keyed →
  foldr (fun x acc => s ← acc; Natural.insert_by_key x s) (Ok []) keyed = Ok r →
  StronglySorted (fun p q => Natural.key_lt q.1 p.1 = Ok false) r.
Proof.
  revert r. induction keyed as [|x l IH]; intros r Hl.
  - intros [= <-]. constructor.
  - apply Forall_cons in Hl as [Hx Hl]. cbn [foldr].
    destruct (insertion_sort_ok l Hl) as (s & Hs & Hperm). rewrite Hs.
    cbn [mbind result_bind rbind]. intros Hr.
    eapply insert_by_key_sorted; [done| |by apply IH|done].
    by rewrite Hperm.
Qed.

Lemma sorted_run (file_list l : list string) :
  Natural.sorted file_list = Ok l →
  ∃ keyed r,
    keyed.*2 = file_list ∧ l = r.*2 ∧ r ≡ₚ keyed ∧
    Forall2 (fun name p => Natural.alphanum_key name = Ok p.1) file_list keyed ∧
    Forall (fun p => alternates true p.1) keyed ∧
    foldr (fun x acc => s ← acc; Natural.insert_by_key x s) (Ok []) keyed = Ok r.
Proof.
  unfold Natural.sorted.
  destruct (mapM _ file_list) as [keyed|] eqn:Hk; [|done].
  destruct (keyed_ok file_list keyed Hk) as (H2 & HF & Halt).
  cbn [mbind result_bind rbind].
  destruct (insertion_sort_ok keyed Halt) as (r & Hr & Hperm). rewrite Hr.
  cbn [rbind]. intros [= <-]. by exists keyed, r.
Qed.

Lemma keyed_keys (file_list : list string) (keyed : list (list key_part * string)) :
  keyed.*2 = file_list →
  Forall2 (fun name p => Natural.alphanum_key name = Ok p.1) file_list keyed →
  Forall (fun p => Natural.alphanum_key p.2 = Ok p.1) keyed.
Proof.
  intros <-. induction keyed as [|p keyed IH]; [constructor|].
  rewrite fmap_cons. intros [Hp HF]%Forall2_cons. constructor; [done|by apply IH].
Qed.

Lemma strongly_sorted_lookup {A} (R : relation A) (l : list A) (i j : nat) (x y : A) :
  StronglySorted R l → (i < j)%nat → l !! i = Some x → l !! j = Some y → R x y.
Proof.
  intros Hs. revert i j. induction Hs as [|a l Hs IH Ha]; intros i j Hij Hx Hy; [done|].
  destruct j as [|j]; [lia|]. cbn in Hy. destruct i as [|i].
  - cbn in Hx. injection Hx as <-. rewrite Forall_forall in Ha. apply Ha.
    by eapply list_elem_of_lookup_2.
  - cbn in Hx. apply (IH i j); [lia|done..].
Qed.

(** X21: the sorted listing is in key order: of two names of the result the
    later one never has the smaller key. *)
Theorem natural_sorted_ordered (file_list l : list string) (i j : nat) (a b : string) :
  Natural.sorted file_list = Ok l →
  (i < j)%nat → l !! i = Some a → l !! j = Some b →
  ∃ ka kb, Natural.alphanum_key a = Ok ka ∧ Natural.alphanum_key b = Ok kb ∧
           Natural.key_lt kb ka = Ok false.
Proof.
  intros (keyed & r & H2 & -> & Hperm & HF & Halt & Hr)%sorted_run Hij Ha Hb.
  pose proof (insertion_sort_sorted keyed r Halt Hr) as Hs.
  pose proof (keyed_keys _ _ H2 HF) as Hkeys. rewrite <-Hperm in Hkeys.
  rewrite list_lookup_fmap in Ha, Hb.
  destruct (r !! i) as [p|] eqn:Hp; [|done]. destruct (r !! j) as [q|] eqn:Hq; [|done].
  cbn in Ha, Hb. injection Ha as <-. injection Hb as <-.
  rewrite Forall_forall in Hkeys.
  exists p.1, q.1. split_and!.
  - apply Hkeys. by eapply list_elem_of_lookup_2.
  - apply Hkeys. by eapply list_elem_of_lookup_2.
  - by apply (strongly_sorted_lookup _ r i j p q Hs Hij).
Qed.

Lemma natural_sorted_ordered_witness :
  ∃ ka kb, Natural.alphanum_key "cell2.trk" = Ok ka ∧
           Natural.alphanum_key "cell10.trk" = Ok kb ∧
           Natural.key_lt kb ka = Ok false.
Proof.
  apply (natural_sorted_ordered ["cell10.trk"; "cell2.trk"] ["cell2.trk"; "cell10.trk"]
           0 1 "cell2.trk" "cell10.trk"); [vm_compute; reflexivity | lia | reflexivity | reflexivity].
Defined.

Lemma lookup_skip {A} (l1 l2 : list A) (x : A) (i : nat) :
  (l1 ++ x :: l2) !! (if decide (i < length l1)%nat then i else S i) = (l1 ++ l2) !! i.
Proof.
  destruct (decide (i < length l1)%nat) as [Hi|Hi].
  - by rewrite !lookup_app_l.
  - rewrite !lookup_app_r by lia. by replace (S i - length l1)%nat with (S (i - length l1)) by lia.
Qed.

Lemma insert_by_key_keeps_order {A} (x p q : list key_part * A) l r (i j : nat) :
  Natural.insert_by_key x l = Ok r →
  (i < j)%nat → l !! i = Some p → l !! j = Some q →
  ∃ i' j', (i' < j')%nat ∧ r !! i' = Some p ∧ r !! j' = Some q.
Proof.
  intros (l1 & l2 & -> & -> & _ & _)%insert_by_key_split Hij Hp Hq.
  exists (if decide (i < length l1)%nat then i else S i),
         (if decide (j < length l1)%nat then j else S j).
  rewrite !lookup_skip. split_and!; [|done..].
  repeat case_decide; lia.
Qed.

Lemma insert_by_key_before_equal {A} (x q : list key_part * A) l r :
  Natural.insert_by_key x l = Ok r →
  q ∈ l → Natural.key_lt q.1 x.1 = Ok false →
  ∃ i' j', (i' < j')%nat ∧ r !! i' = Some x ∧ r !! j' = Some q.
Proof.
  intros (l1 & l2 & -> & -> & Hl1 & _)%insert_by_key_split Hq Hlt.
  apply elem_of_app in Hq as [Hq|Hq].
  - rewrite Forall_forall in Hl1. apply Hl1 in Hq. congruence.
  - apply list_elem_of_lookup in Hq as [k Hk].
    exists (length l1), (length l1 + S k)%nat. split_and!; [lia| |].
    + by rewrite list_lookup_middle.
    + rewrite lookup_app_r by lia.
      by replace (length l1 + S k - length l1)%nat with (S k) by lia.
Qed.

Lemma insertion_sort_stable {A} (keyed r : list (list key_part * A)) (i j : nat) p q :
  Forall (fun p => alternates true p.1) keyed →
  foldr (fun x acc => s ← acc; Natural.insert_by_key x s) (Ok []) keyed = Ok r →
  (i < j)%nat → keyed !! i = Some p → keyed !! j = Some q → p.1 = q.1 →
  ∃ i' j', (i' < j')%nat ∧ r !! i' = Some p ∧ r !! j' = Some q.
Proof.
  revert r i j. induction keyed as [|x l IH]; intros r i j Hl; [done|].
  apply Forall_cons in Hl as [Hx Hl]. cbn [foldr].
  destruct (insertion_sort_ok l Hl) as (s & Hs & Hperm). rewrite Hs.
  cbn [mbind result_bind rbind]. intros Hr Hij Hp Hq Hkey.
  destruct j as [|j]; [lia|]. cbn in Hq. destruct i as [|i].
  - cbn in Hp. injection Hp as ->.
    eapply insert_by_key_before_equal; [done| |].
    + rewrite Hperm. by eapply list_elem_of_lookup_2.
    + rewrite Hkey. apply key_lt_irrefl.
  - cbn in Hp.
    destruct (IH s i j Hl Hs ltac:(lia) Hp Hq Hkey) as (i' & j' & Hij' & Hp' & Hq').
    by eapply insert_by_key_keeps_order.
Qed.

(** X22: the sort is stable: two names of the listing with equal keys, as
    [cell01.trk] and [cell1.trk] have, stay in the order in which the
    listing gives them. *)
Theorem natural_sorted_stable (file_list l : list string) (i j : nat) (a b : string) :
  Natural.sorted file_list = Ok l →
  (i < j)%nat → file_list !! i = Some a → file_list !! j = Some b →
  Natural.alphanum_key a = Natural.alphanum_key b →
  ∃ i' j', (i' < j')%nat ∧ l !! i' = Some a ∧ l !! j' = Some b.
Proof.
  intros (keyed & r & H2 & -> & Hperm & HF & Halt & Hr)%sorted_run Hij Ha Hb Hkey.
  destruct (Forall2_lookup_l _ _ _ _ _ HF Ha) as (p & Hp & Hpa).
  destruct (Forall2_lookup_l _ _ _ _ _ HF Hb) as (q & Hq & Hqb).
  assert (p.2 = a) as Hp2.
  { rewrite <-H2, list_lookup_fmap, Hp in Ha. by injection Ha. }
  assert (q.2 = b) as Hq2.
  { rewrite <-H2, list_lookup_fmap, Hq in Hb. by injection Hb. }
  assert (p.1 = q.1) as Hpq.
  { rewrite Hkey, Hqb in Hpa. by injection Hpa. }
  destruct (insertion_sort_stable keyed r i j p q Halt Hr Hij Hp Hq Hpq)
    as (i' & j' & Hij' & Hp' & Hq').
  exists i', j'. rewrite !list_lookup_fmap, Hp', Hq'. cbn. by rewrite Hp2, Hq2.
Qed.

Lemma natural_sorted_stable_witness :
  ∃ i' j', (i' < j')%nat ∧
           ["cell1.trk"; "cell01.trk"; "cell2.trk"] !! i' = Some "cell1.trk" ∧
           ["cell1.trk"; "cell01.trk"; "cell2.trk"] !! j' = Some "cell01.trk".
Proof.
  apply (natural_sorted_stable ["cell2.trk"; "cell1.trk"; "cell01.trk"]
           ["cell1.trk"; "cell01.trk"; "cell2.trk"] 1 2 "cell1.trk" "cell01.trk");
    [vm_compute; reflexivity | lia | reflexivity | reflexivity | vm_compute; reflexivity].
Defined.

Lemma chars_app (a b : string) : PyStr.chars (a ++ b) = PyStr.chars a ++ PyStr.chars b.
Proof.
  unfold PyStr.chars. induction a as [|c a IH]; [done|].
  change (String c a ++ b)%string with (String c (a ++ b)). cbn. by rewrite IH.
Qed.

Lemma string_of_chars (s : string) : string_of_list_ascii (PyStr.chars s) = s.
Proof. apply string_of_list_ascii_of_string. Qed.

Lemma split_text (l : list ascii) st :
  forallb (fun c => negb (Natural.is_digit c)) l = true →
  foldr Natural.split_step st l = (l ++ st.1, st.2).
Proof.
  induction l as [|c l IH]; [by destruct st|].
  cbn [forallb foldr]. intros [Hc Hl]%andb_true_iff. rewrite (IH Hl).
  unfold Natural.split_step. apply negb_true_iff in Hc. by rewrite Hc.
Qed.

Lemma split_digits (d s : list ascii) :
  d ≠ [] → forallb Natural.is_digit d = true →
  foldr Natural.split_step (s, []) d = ([], [d; s]).
Proof.
  induction d as [|c d IH]; [done|]. intros _.
  cbn [forallb foldr]. intros [Hc Hd]%andb_true_iff.
  destruct d as [|c' d].
  - cbn [foldr]. unfold Natural.split_step. rewrite Hc. cbn [fst snd]. by destruct s.
  - rewrite IH by done. unfold Natural.split_step. by rewrite Hc.
Qed.

Lemma digit_free_text (s : string) :
  digit_free s → forallb (fun c => negb (Natural.is_digit c)) (PyStr.chars s) = true.
Proof.
  unfold digit_free. induction (PyStr.chars s) as [|c l IH]; [done|].
  cbn [forallb]. intros [Hc Hl]%andb_true_iff. rewrite (IH Hl), andb_true_r.
  unfold Natural.isdigit_char in Hc. by destruct (Natural.is_digit c).
Qed.

Lemma digit_free_isdigit (s : string) : digit_free s → Natural.isdigit s = false.
Proof.
  unfold digit_free, Natural.isdigit. destruct s as [|c s]; [done|].
  cbn. intros [Hc _]%andb_true_iff. apply negb_true_iff in Hc. by rewrite Hc.
Qed.

(** The split of a name with one run of digits. *)
Lemma re_split_numbered (p d s : string) :
  digit_free p → digit_free s →
  d ≠ ""%string → forallb Natural.is_digit (PyStr.chars d) = true →
  Natural.re_split (p ++ d ++ s) = [p; d; s].
Proof.
  intros Hp Hs Hne Hd. unfold Natural.re_split.
  rewrite !chars_app, !foldr_app.
  rewrite (split_text (PyStr.chars s)) by by apply digit_free_text.
  cbn [fst snd]. rewrite app_nil_r, split_digits; [|by destruct d|done].
  rewrite (split_text (PyStr.chars p)) by by apply digit_free_text.
  cbn [fst snd fmap list_fmap]. by rewrite app_nil_r, !string_of_chars.
Qed.

Lemma uint_digits (u : Decimal.uint) :
  forallb Natural.is_digit (PyStr.chars (NilEmpty.string_of_uint u)) = true.
Proof. induction u; cbn; by rewrite ?IHu. Qed.

Lemma str_of_int_digits (n : Z) :
  0 ≤ n →
  PyStr.str_of_int n ≠ ""%string ∧
  forallb Natural.is_digit (PyStr.chars (PyStr.str_of_int n)) = true.
Proof.
  intros Hn. unfold PyStr.str_of_int, NilZero.string_of_int.
  assert (∃ u, Z.to_int n = Decimal.Pos u) as [u ->].
  { destruct n; [by eexists|by eexists|lia]. }
  unfold NilZero.string_of_uint. destruct u; cbn; (split; [done|]);
    try done; by rewrite uint_digits.
Qed.

Lemma isdigit_str_of_int (n : Z) : 0 ≤ n → Natural.isdigit (PyStr.str_of_int n) = true.
Proof.
  intros [Hne Hd]%str_of_int_digits.
  rewrite <-(string_of_chars (PyStr.str_of_int n)). apply isdigit_digits; [|done].
  intros Hnil. apply Hne. by rewrite <-(string_of_chars (PyStr.str_of_int n)), Hnil.
Qed.

Lemma alphanum_key_numbered (p s : string) (n : Z) :
  digit_free p → digit_free s → 0 ≤ n →
  Natural.alphanum_key (p ++ PyStr.str_of_int n ++ s) = Ok [KStr p; KInt n; KStr s].
Proof.
  intros Hp Hs Hn. unfold Natural.alphanum_key.
  destruct (str_of_int_digits n Hn) as [Hne Hd].
  rewrite re_split_numbered by done.
  change (mapM Natural.convert [p; PyStr.str_of_int n; s])
    with (rbind (Natural.convert p) (fun x =>
          rbind (rbind (Natural.convert (PyStr.str_of_int n)) (fun y =>
                 rbind (rbind (Natural.convert s) (fun z => rbind (Ok []) (fun r => Ok (z :: r))))
                       (fun r => Ok (y :: r))))
                (fun r => Ok (x :: r)))).
  unfold Natural.convert.
  rewrite (digit_free_isdigit p Hp), (digit_free_isdigit s Hs), (isdigit_str_of_int n Hn).
  by rewrite int_of_str_of_int.
Qed.

(** X23: names that differ in one number only are compared by the number,
    not by its digits: the key of [p ++ str(n) ++ s], for texts [p] and
    [s] without digits and [n >= 0], is [[p, n, s]], and it is smaller than
    the key of [p ++ str(m) ++ s] exactly when [n < m]. *)
Theorem numbered_names_compare (p s : string) (n m : Z) :
  digit_free p → digit_free s → 0 ≤ n → 0 ≤ m →
  ∃ kn km,
    Natural.alphanum_key (p ++ PyStr.str_of_int n ++ s) = Ok kn ∧
    Natural.alphanum_key (p ++ PyStr.str_of_int m ++ s) = Ok km ∧
    kn = [KStr p; KInt n; KStr s] ∧
    Natural.key_lt kn km = Ok (n <? m).
Proof.
  intros Hp Hs Hn Hm. eexists _, _.
  split; [by apply alphanum_key_numbered|].
  split; [by apply alphanum_key_numbered|].
  split; [done|].
  cbn [Natural.key_lt Natural.part_eqb]. rewrite String.eqb_refl.
  destruct (n =? m) eqn:Hnm; [|done].
  rewrite String.eqb_refl. f_equal. lia.
Qed.

Lemma numbered_names_compare_witness :
  ∃ kn km,
    Natural.alphanum_key ("cell" ++ PyStr.str_of_int 2 ++ ".trk") = Ok kn ∧
    Natural.alphanum_key ("cell" ++ PyStr.str_of_int 10 ++ ".trk") = Ok km ∧
    kn = [KStr "cell"; KInt 2; KStr ".trk"] ∧
    Natural.key_lt kn km = Ok (2 <? 10).
Proof.
  apply (numbered_names_compare "cell" ".trk" 2 10); [reflexivity | reflexivity | lia | lia].
Defined.

Lemma int_of_str_leading_zero (n : Z) :
  0 ≤ n → PyStr.int_of_str (String "0" (PyStr.str_of_int n)) = Some n.
Proof.
  intros Hn. pose proof (int_of_str_of_int n) as Hrt.
  destruct (str_of_int_digits n Hn) as [Hne Hd].
  destruct (digits_uint_of_string (PyStr.chars (PyStr.str_of_int n)) Hd) as [u Hu].
  rewrite string_of_chars in Hu.
  unfold PyStr.int_of_str, NilZero.int_of_string, NilZero.uint_of_string in *.
  destruct (PyStr.str_of_int n) as [|c t] eqn:Hs; [done|].
  cbn [forallb PyStr.chars list_ascii_of_string] in Hd.
  apply andb_true_iff in Hd as [Hc _].
  rewrite (is_digit_not_minus c Hc) in Hrt.
  change (NilEmpty.uint_of_string (String "0" (String c t)))
    with (uint_of_char "0" (NilEmpty.uint_of_string (String c t))).
  rewrite Hu in Hrt |- *. cbn in Hrt |- *. exact Hrt.
Qed.

Lemma alphanum_key_leading_zero (p s : string) (n : Z) :
  digit_free p → digit_free s → 0 ≤ n →
  Natural.alphanum_key (p ++ "0" ++ PyStr.str_of_int n ++ s) = Ok [KStr p; KInt n; KStr s].
Proof.
  intros Hp Hs Hn. unfold Natural.alphanum_key.
  destruct (str_of_int_digits n Hn) as [Hne Hd].
  change (p ++ "0" ++ PyStr.str_of_int n ++ s)%string
    with (p ++ String "0" (PyStr.str_of_int n) ++ s)%string.
  rewrite re_split_numbered; [|done|done|done|].
  2:{ change (PyStr.chars (String "0" ?t)) with ("0"%char :: PyStr.chars t).
      cbn [forallb]. by rewrite Hd. }
  change (mapM Natural.convert [p; String "0" (PyStr.str_of_int n); s])
    with (rbind (Natural.convert p) (fun x =>
          rbind (rbind (Natural.convert (String "0" (PyStr.str_of_int n))) (fun y =>
                 rbind (rbind (Natural.convert s) (fun z => rbind (Ok []) (fun r => Ok (z :: r))))
                       (fun r => Ok (y :: r))))
                (fun r => Ok (x :: r)))).
  unfold Natural.convert at 2.
  assert (Natural.isdigit (String "0" (PyStr.str_of_int n)) = true) as ->.
  { rewrite <-(string_of_chars (String "0" _)). apply isdigit_digits; [done|].
    change (PyStr.chars (String "0" ?t)) with ("0"%char :: PyStr.chars t).
    cbn [forallb]. by rewrite Hd. }
  rewrite (int_of_str_leading_zero n Hn). unfold Natural.convert.
  by rewrite (digit_free_isdigit p Hp), (digit_free_isdigit s Hs).
Qed.

Lemma sorted_tie (a b : string) k :
  Natural.alphanum_key a = Ok k → Natural.alphanum_key b = Ok k →
  Natural.sorted [a; b] = Ok [a; b].
Proof.
  intros Ha Hb. unfold Natural.sorted.
  change (mapM ?f [a; b])
    with (rbind (f a) (fun x => rbind (rbind (f b) (fun y => rbind (Ok []) (fun r => Ok (y :: r))))
                                     (fun r => Ok (x :: r)))).
  cbn beta. rewrite Ha, Hb. cbn [mbind result_bind rbind foldr Natural.insert_by_key fst].
  by rewrite key_lt_irrefl.
Qed.

(** X24: a leading zero is not seen by the key, so the sort does not
    decide between [cell01.trk] and [cell1.trk]: the two names have one key
    and each of the two orders in which the listing may give them is kept,
    and with it the batch index of their tracks in the archive. *)
Theorem leading_zero_order_from_listing (p s : string) (n : Z) :
  digit_free p → digit_free s → 0 ≤ n →
  let a := (p ++ "0" ++ PyStr.str_of_int n ++ s)%string in
  let b := (p ++ PyStr.str_of_int n ++ s)%string in
  Natural.alphanum_key a = Natural.alphanum_key b ∧
  Natural.sorted [a; b] = Ok [a; b] ∧
  Natural.sorted [b; a] = Ok [b; a].
Proof.
  intros Hp Hs Hn a b.
  pose proof (alphanum_key_leading_zero p s n Hp Hs Hn) as Ha.
  pose proof (alphanum_key_numbered p s n Hp Hs Hn) as Hb.
  fold a in Ha. fold b in Hb. split_and!.
  - by rewrite Ha, Hb.
  - by eapply sorted_tie.
  - by eapply sorted_tie.
Qed.

Lemma leading_zero_order_from_listing_witness :
  Natural.alphanum_key "cell01.trk" = Natural.alphanum_key "cell1.trk" ∧
  Natural.sorted ["cell01.trk"; "cell1.trk"] = Ok ["cell01.trk"; "cell1.trk"] ∧
  Natural.sorted ["cell1.trk"; "cell01.trk"] = Ok ["cell1.trk"; "cell01.trk"].
Proof.
  apply (leading_zero_order_from_listing "cell" ".trk" 1); [reflexivity | reflexivity | lia].
Defined.

(** ** The folder compiler *)

Lemma trace_blind_ret {A} (a : A) : trace_blind (mret a).
Proof. by intros w w' _. Qed.

Lemma trace_blind_raise {A} (e : exn) : trace_blind (raise (A:=A) e).
Proof. by intros w w' _. Qed.

Lemma trace_blind_lift {A} (r : result A) : trace_blind (lift r).
Proof. by intros w w' _. Qed.

Lemma trace_blind_log ev : trace_blind (log ev).
Proof. by intros w w' _. Qed.

Lemma trace_blind_bind {A B} (m : io A) (k : A → io B) :
  trace_blind m → read_only m → (∀ a, trace_blind (k a)) → trace_blind (m ≫= k).
Proof.
  intros Hm Hro Hk w w' Hfs. rewrite !run_bind.
  pose proof (Hm w w' Hfs) as Hres.
  pose proof (Hro w) as Hw. pose proof (Hro w') as Hw'.
  destruct (run m w) as [r1 w1], (run m w') as [r2 w2]. cbn [fst snd] in *. subst r2.
  destruct r1 as [a|e]; [|done]. apply Hk. congruence.
Qed.

Lemma trace_blind_open_read path : trace_blind (Tar.open_read path).
Proof.
  intros w w' Hfs. unfold Tar.open_read. io_step. rewrite Hfs. by repeat case_match.
Qed.

Lemma trace_blind_extract path members member :
  trace_blind (Tar.extract path members member).
Proof.
  unfold Tar.extract. apply trace_blind_bind; [apply trace_blind_log|apply read_only_log|].
  intros _. case_match; [apply trace_blind_ret|apply trace_blind_raise].
Qed.

Ltac trace_blind_step :=
  first
    [ apply trace_blind_ret | apply trace_blind_raise | apply trace_blind_lift
    | apply trace_blind_log | apply trace_blind_open_read | apply trace_blind_extract
    | apply trace_blind_bind; [| |intros ?] ].

Lemma load_trks_trace_blind filename : trace_blind (load_trks filename).
Proof.
  unfold load_trks.
  repeat first [ trace_blind_step | read_only_step
               | progress (repeat case_match) ].
Qed.

Lemma folder_step_read_only dirname filename st : read_only (folder_step dirname filename st).
Proof.
  unfold folder_step. apply read_only_bind; [apply load_trks_read_only|intros t].
  repeat read_only_step.
Qed.

Lemma io_for_each_read_only {A S} (l : list A) (body : A → S → io S) (s : S) :
  (∀ x s, read_only (body x s)) → read_only (io_for_each l body s).
Proof.
  intros Hbody. revert s. induction l as [|x l IH]; intros s.
  - apply read_only_ret.
  - cbn [io_for_each]. apply read_only_bind; [apply Hbody|apply IH].
Qed.

(** The loop over names that all load: the graphs, the raw and the tracked
    arrays are appended in the order of the names. *)
Lemma folder_loop_run dirname (names : list string) (ts : list trks)
    (gs : list (list (Z * json))) (w : world) :
  Forall2 (fun name t => (run (load_trks (PosixPath.join dirname name)) w).1 = Ok t) names ts →
  Forall2 (fun t g => head (lineages t) = Some g) ts gs →
  ∀ st w1, fs w1 = fs w →
    ∃ w2, fs w2 = fs w ∧
          run (io_for_each names (folder_step dirname) st) w1 =
          (Ok (st.1.1 ++ gs, st.1.2 ++ (X <$> ts), st.2 ++ (y <$> ts)), w2).
Proof.
  intros Hload. revert gs. induction Hload as [|name t names ts Ht _ IH]; intros gs Hgs st w1 Hw1.
  - apply Forall2_nil_inv_l in Hgs as ->. exists w1. split; [done|].
    cbn. rewrite !app_nil_r. by destruct st as [[? ?] ?].
  - apply Forall2_cons_inv_l in Hgs as (g & gs' & Hg & Hgs & ->).
    cbn [io_for_each]. rewrite run_bind. unfold folder_step at 1. rewrite run_bind.
    pose proof (load_trks_trace_blind (PosixPath.join dirname name) w1 w Hw1) as Hres.
    pose proof (load_trks_read_only (PosixPath.join dirname name) w1) as Hfs.
    destruct (run (load_trks (PosixPath.join dirname name)) w1) as [r w1'].
    cbn [fst snd] in Hres, Hfs. rewrite Ht in Hres. subst r.
    destruct (lineages t) as [|g' l'] eqn:Hl; [done|]. cbn in Hg. injection Hg as ->.
    io_step.
    destruct (IH gs' Hgs (st.1.1 ++ [g], st.1.2 ++ [X t], st.2 ++ [y t])
                (World (fs w1') (trace w1'))) as (w2 & Hw2 & Hrun).
    { cbn [fs]. congruence. }
    exists w2. split; [done|].
    replace w1' with (World (fs w1') (trace w1')) by by destruct w1'.
    rewrite Hrun. cbn [fst snd fmap list_fmap]. by rewrite <-!app_assoc.
Qed.

Lemma save_trks_lists_run filename lineages raw tracked R Y w :
  PyStr.endswith (PyStr.lower filename) ".trks" = true →
  np_asanyarray raw = Ok R → np_asanyarray tracked = Ok Y →
  run (save_trks_lists filename lineages raw tracked) w =
  run (save_trks filename lineages R Y) w.
Proof.
  intros Hguard HR HY. unfold save_trks_lists, save_trks, tar_add_arrays.
  rewrite Hguard, HR, HY. cbn [negb]. done.
Qed.

Lemma folder_loop_read_only dirname names st :
  read_only (io_for_each names (folder_step dirname) st).
Proof. apply io_for_each_read_only. intros. apply folder_step_read_only. Qed.

(** The run up to the call of [save_trks]. *)
Lemma trk_folder_to_trks_run file_list dirname trks_filename w :
  run (trk_folder_to_trks file_list dirname trks_filename) w =
  match Natural.sorted file_list with
  | Ok names =>
      match run (io_for_each names (folder_step dirname) ([], [], [])) w with
      | (Ok st, w1) =>
          run (save_trks_lists (PosixPath.join (PosixPath.dirname dirname) trks_filename)
                 st.1.1 st.1.2 st.2) w1
      | (Raise e, w1) => (Raise e, w1)
      end
  | Raise e => (Raise e, w)
  end.
Proof.
  unfold trk_folder_to_trks. rewrite run_bind.
  destruct (Natural.sorted file_list) as [names|e]; [|done].
  cbn [lift run]. by rewrite run_bind.
Qed.

(** X25: the name of the archive is checked last.  When the path built
    from [dirname] and [trks_filename] does not end in [.trks] in lower
    case, [trk_folder_to_trks] raises and no file is written or changed;
    when the sorted names all load, each with a first Lineage Graph, the
    exception is the [ValueError] of [save_trks], raised after the loads. *)
Theorem trk_folder_to_trks_bad_name
    (file_list : list string) (dirname trks_filename : string) (w : world) :
  PyStr.endswith
    (PyStr.lower (PosixPath.join (PosixPath.dirname dirname) trks_filename)) ".trks" = false →
  (∃ e, (run (trk_folder_to_trks file_list dirname trks_filename) w).1 = Raise e) ∧
  fs (run (trk_folder_to_trks file_list dirname trks_filename) w).2 = fs w ∧
  (∀ names ts gs,
     Natural.sorted file_list = Ok names →
     Forall2 (fun name t => (run (load_trks (PosixPath.join dirname name)) w).1 = Ok t)
             names ts →
     Forall2 (fun t g => head (lineages t) = Some g) ts gs →
     (run (trk_folder_to_trks file_list dirname trks_filename) w).1 = Raise ValueError).
Proof.
  intros Hguard. rewrite trk_folder_to_trks_run.
  destruct (Natural.sorted file_list) as [names|e]; [|by split_and!; [eexists|..]].
  pose proof (folder_loop_read_only dirname names ([], [], []) w) as Hfs.
  split_and!.
  - destruct (run (io_for_each names (folder_step dirname) ([], [], [])) w) as [[st|e] w1];
      [|by eexists].
    unfold save_trks_lists. rewrite Hguard. by eexists.
  - destruct (run (io_for_each names (folder_step dirname) ([], [], [])) w) as [[st|e] w1];
      cbn [snd] in Hfs; [|done].
    unfold save_trks_lists. by rewrite Hguard.
  - intros names' ts gs [= <-] Hload Hgs.
    destruct (folder_loop_run dirname names ts gs w Hload Hgs ([], [], []) w eq_refl)
      as (w1 & _ & ->).
    unfold save_trks_lists. by rewrite Hguard.
Qed.

Lemma trk_folder_to_trks_bad_name_witness :
  (∃ e, (run (trk_folder_to_trks ["cell10.trk"; "cell2.trk"] "set" "all.trk") folder_world).1
        = Raise e) ∧
  fs (run (trk_folder_to_trks ["cell10.trk"; "cell2.trk"] "set" "all.trk") folder_world).2
  = fs folder_world ∧
  (∀ names ts gs,
     Natural.sorted ["cell10.trk"; "cell2.trk"] = Ok names →
     Forall2 (fun name t => (run (load_trks (PosixPath.join "set" name)) folder_world).1 = Ok t)
             names ts →
     Forall2 (fun t g => head (lineages t) = Some g) ts gs →
     (run (trk_folder_to_trks ["cell10.trk"; "cell2.trk"] "set" "all.trk") folder_world).1
     = Raise ValueError).
Proof.
  apply (trk_folder_to_trks_bad_name ["cell10.trk"; "cell2.trk"] "set" "all.trk" folder_world).
  reflexivity.
Defined.

(** When the sorted names all load, the call comes down to [save_trks] on
    what the loop has collected, on a file system that the loads have not
    changed. *)
Lemma folder_run
    (file_list names : list string) (dirname trks_filename : string)
    (ts : list trks) (gs : list (list (Z * json))) (w : world) :
  Natural.sorted file_list = Ok names →
  Forall2 (fun name t => (run (load_trks (PosixPath.join dirname name)) w).1 = Ok t) names ts →
  Forall2 (fun t g => head (lineages t) = Some g) ts gs →
  ∃ w1, fs w1 = fs w ∧
        run (trk_folder_to_trks file_list dirname trks_filename) w =
        run (save_trks_lists (PosixPath.join (PosixPath.dirname dirname) trks_filename)
               gs (X <$> ts) (y <$> ts)) w1.
Proof.
  intros Hsorted Hload Hgs. rewrite trk_folder_to_trks_run, Hsorted.
  destruct (folder_loop_run dirname names ts gs w Hload Hgs ([], [], []) w eq_refl)
    as (w1 & Hw1 & ->).
  by exists w1.
Qed.

(** The graphs that [load_trks] returns have no key twice. *)
Lemma loaded_graphs_wf dirname (names : list string) (ts : list trks)
    (gs : list (list (Z * json))) (w : world) :
  Forall2 (fun name t => (run (load_trks (PosixPath.join dirname name)) w).1 = Ok t) names ts →
  Forall2 (fun t g => head (lineages t) = Some g) ts gs →
  Forall wf_dict gs.
Proof.
  intros Hload. revert gs.
  induction Hload as [|name t names ts Ht _ IH]; intros gs Hgs.
  - by apply Forall2_nil_inv_l in Hgs as ->.
  - apply Forall2_cons_inv_l in Hgs as (g & gs' & Hg & Hgs & ->).
    constructor; [|by apply IH].
    destruct (run (load_trks (PosixPath.join dirname name)) w) as [r w'] eqn:Hrun.
    cbn [fst] in Ht. subst r. apply load_trks_wf in Hrun.
    destruct (lineages t) as [|g' l]; [done|]. cbn in Hg. injection Hg as ->.
    by apply Forall_cons in Hrun as [? _].
Qed.

(** X26: compiling a folder.  When the sorted names all load and each
    loaded archive has a first Lineage Graph, and the raw arrays have one
    shape and the tracked arrays have one shape, [trk_folder_to_trks]
    returns, the archive at [dirname(dirname)/trks_filename] holds the first
    graphs, the stacked raw arrays and the stacked tracked arrays in the
    sorted order of the names, no other path changes, and [load_trks] of
    the archive gives these back. *)
Theorem trk_folder_to_trks_compiles
    (file_list names : list string) (dirname trks_filename : string)
    (ts : list trks) (gs : list (list (Z * json))) (R Y : ndarray) (w : world) :
  let file_path := PosixPath.join (PosixPath.dirname dirname) trks_filename in
  let out := run (trk_folder_to_trks file_list dirname trks_filename) w in
  Natural.sorted file_list = Ok names →
  Forall2 (fun name t => (run (load_trks (PosixPath.join dirname name)) w).1 = Ok t) names ts →
  Forall2 (fun t g => head (lineages t) = Some g) ts gs →
  np_asanyarray (X <$> ts) = Ok R →
  np_asanyarray (y <$> ts) = Ok Y →
  (PyStr.splitext file_path).2 = ".trks"%string →
  out.1 = Ok tt ∧
  fs out.2 = <[file_path := FTar (saved_archive gs R Y)]> (fs w) ∧
  (run (load_trks file_path) out.2).1 = Ok (Trks gs R Y).
Proof.
  intros file_path out Hsorted Hload Hgs HR HY Hext. subst out.
  destruct (folder_run file_list names dirname trks_filename ts gs w Hsorted Hload Hgs)
    as (w1 & Hw1 & ->).
  fold file_path.
  pose proof (trks_extension_endswith file_path Hext) as Hguard.
  rewrite (save_trks_lists_run file_path gs _ _ R Y w1 Hguard HR HY).
  rewrite save_trks_run by done. cbn [fst snd fs]. rewrite Hw1.
  split; [done|]. split; [done|].
  erewrite load_trks_run_trks; cbn [fs fst];
    [done|apply lookup_insert_eq|done..|apply int_keys_all_dump].
  by eapply loaded_graphs_wf.
Qed.

Lemma trk_folder_to_trks_compiles_witness :
  (run (trk_folder_to_trks ["cell10.trk"; "cell2.trk"] "set" "all.trks") folder_world).1 = Ok tt ∧
  fs (run (trk_folder_to_trks ["cell10.trk"; "cell2.trk"] "set" "all.trks") folder_world).2
  = <["all.trks" := FTar (saved_archive [single_batch_graph; single_batch_graph]
                            (NdArray (2%nat :: shape scenario_a) (data scenario_a ++ data scenario_a))
                            (NdArray (2%nat :: shape scenario_a) (data scenario_a ++ data scenario_a)))]>
      (fs folder_world) ∧
  (run (load_trks "all.trks")
       (run (trk_folder_to_trks ["cell10.trk"; "cell2.trk"] "set" "all.trks") folder_world).2).1
  = Ok (Trks [single_batch_graph; single_batch_graph]
          (NdArray (2%nat :: shape scenario_a) (data scenario_a ++ data scenario_a))
          (NdArray (2%nat :: shape scenario_a) (data scenario_a ++ data scenario_a))).
Proof.
  apply (trk_folder_to_trks_compiles ["cell10.trk"; "cell2.trk"] ["cell2.trk"; "cell10.trk"]
           "set" "all.trks"
           [Trks [single_batch_graph] scenario_a scenario_a;
            Trks [single_batch_graph] scenario_a scenario_a]
           [single_batch_graph; single_batch_graph]
           (NdArray (2%nat :: shape scenario_a) (data scenario_a ++ data scenario_a))
           (NdArray (2%nat :: shape scenario_a) (data scenario_a ++ data scenario_a))
           folder_world).
  - vm_compute. reflexivity.
  - repeat constructor.
  - repeat constructor.
  - vm_compute. reflexivity.
  - vm_compute. reflexivity.
  - reflexivity.
Defined.

(** A path whose extension is neither [.trks] nor [.trk] never loads. *)
Lemma load_trks_other_extension filename w t :
  (PyStr.splitext filename).2 ≠ ".trks"%string →
  (PyStr.splitext filename).2 ≠ ".trk"%string →
  (run (load_trks filename) w).1 ≠ Ok t.
Proof.
  intros H1%String.eqb_neq H2%String.eqb_neq. unfold load_trks. rewrite H1, H2.
  io_step. repeat (case_match; io_step; try done).
Qed.

(** The loop stops at the first name that does not load. *)
Lemma folder_loop_fails dirname (names : list string) (name : string) (w : world) :
  name ∈ names →
  (∀ t, (run (load_trks (PosixPath.join dirname name)) w).1 ≠ Ok t) →
  ∀ st w1, fs w1 = fs w →
    ∃ e, (run (io_for_each names (folder_step dirname) st) w1).1 = Raise e.
Proof.
  intros Hin Hfail. induction names as [|n names IH]; intros st w1 Hw1.
  - by apply elem_of_nil in Hin.
  - cbn [io_for_each]. rewrite run_bind. unfold folder_step at 1. rewrite run_bind.
    pose proof (load_trks_trace_blind (PosixPath.join dirname n) w1 w Hw1) as Hres.
    pose proof (load_trks_read_only (PosixPath.join dirname n) w1) as Hfs.
    destruct (run (load_trks (PosixPath.join dirname n)) w1) as [[t|e] w1'];
      cbn [fst snd] in Hres, Hfs; [|by eexists].
    apply elem_of_cons in Hin as [->|Hin]; [by destruct (Hfail t)|].
    destruct (lineages t) as [|g l]; io_step; [by eexists|].
    apply IH; [done|]. cbn [fs]. congruence.
Qed.

Lemma sorted_elem_of (file_list names : list string) (name : string) :
  Natural.sorted file_list = Ok names → name ∈ file_list → name ∈ names.
Proof.
  intros (keyed & r & <- & -> & Hperm & _)%sorted_run Hin. by rewrite Hperm.
Qed.

(** A loop that raises ends the call, and nothing has been written. *)
Lemma folder_raises file_list dirname trks_filename w :
  (∀ names, Natural.sorted file_list = Ok names →
     ∃ e, (run (io_for_each names (folder_step dirname) ([], [], [])) w).1 = Raise e) →
  (∃ e, (run (trk_folder_to_trks file_list dirname trks_filename) w).1 = Raise e) ∧
  fs (run (trk_folder_to_trks file_list dirname trks_filename) w).2 = fs w.
Proof.
  intros Hloop. rewrite trk_folder_to_trks_run.
  destruct (Natural.sorted file_list) as [names|e] eqn:Hsorted; [|by split; [eexists|]].
  pose proof (folder_loop_read_only dirname names ([], [], []) w) as Hfs.
  destruct (Hloop names eq_refl) as [e He].
  destruct (run (io_for_each names (folder_step dirname) ([], [], [])) w) as [r w1].
  cbn [fst snd] in Hfs, He. subst r. by split; [eexists|].
Qed.

(** X27: all or nothing.  If one entry of the listing does not load, be it
    a missing member, a broken Lineage Graph or no archive at all, then
    [trk_folder_to_trks] raises and writes nothing: the archive is never
    made of the entries that do load. *)
Theorem trk_folder_to_trks_all_or_nothing
    (file_list : list string) (dirname trks_filename name : string) (w : world) :
  name ∈ file_list →
  (∀ t, (run (load_trks (PosixPath.join dirname name)) w).1 ≠ Ok t) →
  (∃ e, (run (trk_folder_to_trks file_list dirname trks_filename) w).1 = Raise e) ∧
  fs (run (trk_folder_to_trks file_list dirname trks_filename) w).2 = fs w.
Proof.
  intros Hin Hfail. apply folder_raises. intros names Hsorted.
  eapply folder_loop_fails; [by eapply sorted_elem_of|done..].
Qed.

Lemma trk_folder_to_trks_all_or_nothing_witness :
  (∃ e, (run (trk_folder_to_trks ["cell10.trk"; "cell3.trk"; "cell2.trk"] "set" "all.trks")
             folder_world).1 = Raise e) ∧
  fs (run (trk_folder_to_trks ["cell10.trk"; "cell3.trk"; "cell2.trk"] "set" "all.trks")
          folder_world).2 = fs folder_world.
Proof.
  apply (trk_folder_to_trks_all_or_nothing ["cell10.trk"; "cell3.trk"; "cell2.trk"]
           "set" "all.trks" "cell3.trk" folder_world).
  - repeat constructor.
  - intros t. vm_compute. discriminate.
Defined.

(** X28: a stray entry stops the compilation.  Every entry of the
    directory is loaded, whatever its name: one entry whose extension is
    neither [.trk] nor [.trks] (a note, a subdirectory, an image) makes
    [trk_folder_to_trks] raise, and nothing is written. *)
Theorem trk_folder_to_trks_stray_entry
    (file_list : list string) (dirname trks_filename name : string) (w : world) :
  name ∈ file_list →
  (PyStr.splitext (PosixPath.join dirname name)).2 ≠ ".trks"%string →
  (PyStr.splitext (PosixPath.join dirname name)).2 ≠ ".trk"%string →
  (∃ e, (run (trk_folder_to_trks file_list dirname trks_filename) w).1 = Raise e) ∧
  fs (run (trk_folder_to_trks file_list dirname trks_filename) w).2 = fs w.
Proof.
  intros Hin H1 H2. apply folder_raises. intros names Hsorted.
  eapply folder_loop_fails; [by eapply sorted_elem_of| |done].
  intros t. by apply load_trks_other_extension.
Qed.

Lemma trk_folder_to_trks_stray_entry_witness :
  (∃ e, (run (trk_folder_to_trks ["cell10.trk"; "notes.txt"; "cell2.trk"] "set" "all.trks")
             folder_world).1 = Raise e) ∧
  fs (run (trk_folder_to_trks ["cell10.trk"; "notes.txt"; "cell2.trk"] "set" "all.trks")
          folder_world).2 = fs folder_world.
Proof.
  apply (trk_folder_to_trks_stray_entry ["cell10.trk"; "notes.txt"; "cell2.trk"]
           "set" "all.trks" "notes.txt" folder_world).
  - repeat constructor.
  - vm_compute. discriminate.
  - vm_compute. discriminate.
Defined.

(** ** The path of the archive *)

Lemma rfind_from_last (c : ascii) (l : list ascii) (i : Z) :
  0 ≤ i → PyStr.rfind_from c (l ++ [c]) i = i + Z.of_nat (length l).
Proof.
  revert i. induction l as [|x l IH]; intros i Hi.
  - cbn. rewrite Ascii.eqb_refl. lia.
  - cbn [app PyStr.rfind_from length]. rewrite IH by lia.
    destruct (_ =? -1) eqn:Heq; lia.
Qed.

Lemma lstrip_sep_head (x : ascii) (l : list ascii) :
  x ≠ "/"%char → PosixPath.lstrip_sep (x :: l) = x :: l.
Proof. intros Hx%Ascii.eqb_neq. cbn. by rewrite Hx. Qed.

Lemma chars_no_trailing_sep (d : string) :
  d ≠ ""%string → PyStr.endswith d "/" = false →
  ∃ l x, PyStr.chars d = l ++ [x] ∧ x ≠ "/"%char.
Proof.
  intros Hne Hend.
  destruct (PyStr.chars d) as [|x l _] eqn:Hd using rev_ind.
  - destruct d; [done|discriminate].
  - exists l, x. split; [done|]. intros ->.
    unfold PyStr.endswith in Hend. rewrite Hd in Hend.
    apply bool_decide_eq_false in Hend. apply Hend. by exists l.
Qed.

Lemma dirname_trailing_sep (d : string) :
  d ≠ ""%string → PyStr.endswith d "/" = false →
  PosixPath.dirname (d ++ "/") = d.
Proof.
  intros Hne Hend. destruct (chars_no_trailing_sep d Hne Hend) as (l & x & Hd & Hx).
  unfold PosixPath.dirname, PyStr.rfind. rewrite chars_app.
  change (PyStr.chars "/") with ["/"%char].
  rewrite rfind_from_last by lia.
  replace (Z.to_nat (0 + Z.of_nat (length (PyStr.chars d)) + 1))
    with (length (PyStr.chars d ++ ["/"%char])) by (rewrite length_app; cbn; lia).
  rewrite firstn_all.
  assert (forallb (fun c => Ascii.eqb c "/") (PyStr.chars d ++ ["/"%char]) = false) as ->.
  { rewrite Hd, !forallb_app. cbn [forallb].
    apply Ascii.eqb_neq in Hx. rewrite Hx. by rewrite andb_false_r. }
  rewrite bool_decide_eq_false_2 by by destruct (PyStr.chars d).
  cbn [negb andb]. unfold PosixPath.rstrip_sep.
  rewrite reverse_app. change (reverse ["/"%char]) with ["/"%char]. cbn [app].
  change (PosixPath.lstrip_sep ("/"%char :: ?t)) with (PosixPath.lstrip_sep t).
  rewrite Hd, reverse_app. change (reverse [x]) with [x]. cbn [app].
  rewrite lstrip_sep_head by done.
  rewrite reverse_cons, reverse_involutive, <-Hd. apply string_of_chars.
Qed.

Lemma endswith_trailing_sep (d : string) : PyStr.endswith (d ++ "/") "/" = true.
Proof.
  unfold PyStr.endswith. rewrite chars_app. apply bool_decide_eq_true.
  by exists (PyStr.chars d).
Qed.

(** With a trailing separator the archive is an entry of the directory. *)
Lemma archive_path_trailing_sep (d trks_filename : string) :
  d ≠ ""%string → PyStr.endswith d "/" = false →
  PosixPath.join (PosixPath.dirname (d ++ "/")) trks_filename =
  PosixPath.join (d ++ "/") trks_filename.
Proof.
  intros Hne Hend. rewrite dirname_trailing_sep by done. unfold PosixPath.join.
  case_match; [done|].
  rewrite endswith_trailing_sep, Hend, orb_true_r.
  assert (String.eqb d "" = false) as -> by by apply String.eqb_neq.
  cbn [orb]. clear. induction d as [|c d IH]; [done|].
  change (String c d ++ ?t)%string with (String c (d ++ t)%string).
  by rewrite IH.
Qed.

(** X29: the directory given with a trailing separator is compiled into
    itself.  [os.path.dirname] of [d/] is [d], not the parent of [d]: when
    the compilation succeeds, the archive is written under [trks_filename]
    into the directory that was read, beside the archives it was made
    of. *)
Theorem trk_folder_to_trks_trailing_separator
    (file_list names : list string) (d trks_filename : string)
    (ts : list trks) (gs : list (list (Z * json))) (R Y : ndarray) (w : world) :
  let dirname := (d ++ "/")%string in
  let out := run (trk_folder_to_trks file_list dirname trks_filename) w in
  d ≠ ""%string → PyStr.endswith d "/" = false →
  Natural.sorted file_list = Ok names →
  Forall2 (fun name t => (run (load_trks (PosixPath.join dirname name)) w).1 = Ok t) names ts →
  Forall2 (fun t g => head (lineages t) = Some g) ts gs →
  np_asanyarray (X <$> ts) = Ok R →
  np_asanyarray (y <$> ts) = Ok Y →
  (PyStr.splitext (PosixPath.join dirname trks_filename)).2 = ".trks"%string →
  out.1 = Ok tt ∧
  fs out.2 !! PosixPath.join dirname trks_filename = Some (FTar (saved_archive gs R Y)).
Proof.
  intros dirname out Hne Hend Hsorted Hload Hgs HR HY Hext.
  pose proof (archive_path_trailing_sep d trks_filename Hne Hend) as Hpath.
  fold dirname in Hpath. rewrite <-Hpath in Hext |- *. subst out.
  destruct (folder_run file_list names dirname trks_filename ts gs w Hsorted Hload Hgs)
    as (w1 & Hw1 & ->).
  pose proof (trks_extension_endswith _ Hext) as Hguard.
  rewrite (save_trks_lists_run _ gs _ _ R Y w1 Hguard HR HY).
  rewrite save_trks_run by done. cbn [fst snd fs].
  split; [done|]. apply lookup_insert_eq.
Qed.

Lemma trk_folder_to_trks_trailing_separator_witness :
  (run (trk_folder_to_trks ["cell10.trk"; "cell2.trk"] "set/" "all.trks") folder_world).1 = Ok tt ∧
  fs (run (trk_folder_to_trks ["cell10.trk"; "cell2.trk"] "set/" "all.trks") folder_world).2
    !! "set/all.trks"
  = Some (FTar (saved_archive [single_batch_graph; single_batch_graph]
                  (NdArray (2%nat :: shape scenario_a) (data scenario_a ++ data scenario_a))
                  (NdArray (2%nat :: shape scenario_a) (data scenario_a ++ data scenario_a)))).
Proof.
  apply (trk_folder_to_trks_trailing_separator
           ["cell10.trk"; "cell2.trk"] ["cell2.trk"; "cell10.trk"] "set" "all.trks"
           [Trks [single_batch_graph] scenario_a scenario_a;
            Trks [single_batch_graph] scenario_a scenario_a]
           [single_batch_graph; single_batch_graph]
           (NdArray (2%nat :: shape scenario_a) (data scenario_a ++ data scenario_a))
           (NdArray (2%nat :: shape scenario_a) (data scenario_a ++ data scenario_a))
           folder_world).
  - discriminate.
  - reflexivity.
  - vm_compute. reflexivity.
  - repeat constructor.
  - repeat constructor.
  - vm_compute. reflexivity.
  - vm_compute. reflexivity.
  - reflexivity.
Defined.
